(** * XMLViewer: the rendering engine and image resolver of [public/app.js]

    A shallow embedding of the [XMLViewer] class: the image index (a JS [Map]
    kept in insertion order), the resolver [findImageUrl], the element
    renderer ([renderElement] and its helpers), the raw formatter
    [formatXML], and the session operations [processFile] and [reset].

    - JS strings are modelled by [string]: a sequence of code units, each in
      the range 0..255 (the Latin-1 part of UTF-16).  On that range
      [toLowerCase], [trim] and the regular-expression class [\s] are
      written out exactly.
    - The document is the tree [DOMParser] builds for ['text/xml'].  What the
      browser does on it is written out where the source relies on it:
      [textContent], [getAttribute], the type selectors of [querySelector]
      (compared with the local name, case kept, as in every XML document),
      [closest], and the serialisation behind [innerHTML].
    - The renderer takes fuel, since [renderTable] recurses into descendants
      found by a selector; [render] gives it the height of the tree, and
      [renderElement_total] shows that this is enough.
    - An object URL is identified by its serial number; the page's store of
      live object URLs is part of the viewer state. *)

From Stdlib Require Import Bool Arith NArith Lia List Ascii String.
From Stdlib Require Import DecimalString.
From Stdlib Require Import Permutation Sorted.
From Equations Require Import Equations.
From Equations.Prop Require Logic.
Import ListNotations.

Local Open Scope list_scope.
Local Open Scope string_scope.
Local Set Warnings "-register-all".

(* ===================================================================== *)
(** * Definitions                                                         *)
(* ===================================================================== *)

(** ** JS string primitives *)

Module Js.

Definition chr (c : ascii) : string := String c EmptyString.

(** The characters that cannot be written inside a string literal. *)
Definition nl : string := chr "010".
Definition dq : string := chr "034".

Definition code (c : ascii) : nat := nat_of_ascii c.

(** [WhiteSpace] and [LineTerminator] code points below 256: TAB, LF, VT,
    FF, CR, SPACE and NBSP.  Both [String.prototype.trim] and the regexp
    class [\s] use this set. *)
Definition is_ws (c : ascii) : bool :=
  let n := code c in
  (((9 <=? n) && (n <=? 13)) || (n =? 32) || (n =? 160))%nat.

(** Truthiness of a string value: only the empty string is falsy. *)
Definition truthy (s : string) : bool :=
  match s with EmptyString => false | String _ _ => true end.

Fixpoint trimStart (s : string) : string :=
  match s with
  | EmptyString => EmptyString
  | String c r => if is_ws c then trimStart r else s
  end.

Fixpoint trimEnd (s : string) : string :=
  match s with
  | EmptyString => EmptyString
  | String c r =>
      let r' := trimEnd r in
      if is_ws c && negb (truthy r') then EmptyString else String c r'
  end.

Definition trim (s : string) : string := trimEnd (trimStart s).

(** [toLowerCase] on one code unit below 256: A-Z and the Latin-1 capitals
    U+00C0..U+00DE (U+00D7, the multiplication sign, excepted). *)
Definition lower_char (c : ascii) : ascii :=
  let n := code c in
  if (((65 <=? n) && (n <=? 90)) ||
      ((192 <=? n) && (n <=? 222) && negb (n =? 215)))%nat
  then ascii_of_nat (n + 32) else c.

Fixpoint toLowerCase (s : string) : string :=
  match s with
  | EmptyString => EmptyString
  | String c r => String (lower_char c) (toLowerCase r)
  end.

Definition startsWith (s p : string) : bool := String.prefix p s.

Fixpoint endsWith (s p : string) : bool :=
  String.eqb s p ||
  match s with
  | EmptyString => false
  | String _ r => endsWith r p
  end.

(** [s.includes(t)]: [t] occurs in [s] at some position. *)
Fixpoint includes (s t : string) : bool :=
  String.prefix t s ||
  match s with
  | EmptyString => false
  | String _ r => includes r t
  end.

(** [s.split(sep)] for a one-character separator; the result is never
    empty. *)
Fixpoint split (sep : ascii) (s : string) : list string :=
  match s with
  | EmptyString => [EmptyString]
  | String c r =>
      if Ascii.eqb c sep then EmptyString :: split sep r
      else match split sep r with
           | h :: t => String c h :: t
           | [] => [chr c]
           end
  end.

(** [arr.pop()] on the result of a split: its last element. *)
Definition pop (l : list string) : string := List.last l EmptyString.

Fixpoint repeat (s : string) (n : nat) : string :=
  match n with
  | 0 => EmptyString
  | S k => s ++ repeat s k
  end.

(** [array.includes(x)] on an array of strings. *)
Definition inArray (x : string) (l : list string) : bool :=
  existsb (String.eqb x) l.

(** [a || b] on values that are a string or [null]. *)
Definition orElse (a b : option string) : option string :=
  match a with
  | Some s => if truthy s then a else b
  | None => b
  end.

(** A value used as a condition: [null] and the empty string are falsy. *)
Definition given (a : option string) : option string :=
  match a with
  | Some s => if truthy s then a else None
  | None => None
  end.

Fixpoint noDot (s : string) : bool :=
  match s with
  | EmptyString => true
  | String c r => negb (Ascii.eqb c ".") && noDot r
  end.

(** [s.replace(/\.[^.]+$/, '')]: the match is tried at each position from
    the left; it succeeds at a dot followed by one or more non-dot
    characters up to the end of the string. *)
Fixpoint stripExtension (s : string) : string :=
  match s with
  | EmptyString => EmptyString
  | String c r =>
      if Ascii.eqb c "." && truthy r && noDot r then EmptyString
      else String c (stripExtension r)
  end.

(** [s.replace(/^\.\//, '')] and [s.replace(/^\//, '')]. *)
Definition stripDotSlash (s : string) : string :=
  match s with
  | String a (String b r) =>
      if Ascii.eqb a "." && Ascii.eqb b "/" then r else s
  | _ => s
  end.

Definition stripSlash (s : string) : string :=
  match s with
  | String a r => if Ascii.eqb a "/" then r else s
  | _ => s
  end.

End Js.

(** ** The JS [Map]: string keys, insertion order kept *)

Module JsMap.

Section Ops.
Context {V : Type}.

Definition t := list (string * V).

Definition empty : t := [].

Fixpoint get (k : string) (m : t) : option V :=
  match m with
  | [] => None
  | (k', v) :: r => if String.eqb k k' then Some v else get k r
  end.

Definition has (k : string) (m : t) : bool :=
  match get k m with Some _ => true | None => false end.

(** [m.set(k, v)]: an existing key keeps its place and takes the new
    value; a new key goes last. *)
Fixpoint set (k : string) (v : V) (m : t) : t :=
  match m with
  | [] => [(k, v)]
  | (k', v') :: r =>
      if String.eqb k k' then (k', v) :: r else (k', v') :: set k v r
  end.

Definition entries (m : t) : list (string * V) := m.
Definition values (m : t) : list V := List.map snd m.
Definition keys (m : t) : list string := List.map fst m.
End Ops.

Arguments t : clear implicits.

End JsMap.

(** ** Image index and resolver *)

(** A rendering handle: the object URL made by [URL.createObjectURL],
    identified by its serial number. *)
Definition url := nat.

Definition urlString (u : url) : string :=
  "blob:" ++ NilEmpty.string_of_uint (Nat.to_uint u).

Definition ImageIndex := JsMap.t url.

(** Lines 158-169 of [extractContents]: the keys one image is stored
    under, in the order of the five [set] calls. *)
Definition storeImage (path : string) (u : url) (images : ImageIndex)
  : ImageIndex :=
  let fullName := Js.pop (Js.split "/" path) in
  let baseName := Js.toLowerCase fullName in
  let images := JsMap.set fullName u images in
  let images := JsMap.set baseName u images in
  let images := JsMap.set path u images in
  let nameWithoutExt := Js.stripExtension fullName in
  let images := JsMap.set nameWithoutExt u images in
  JsMap.set (Js.toLowerCase nameWithoutExt) u images.

(** The [attempts] array of [findImageUrl]. *)
Definition attempts (src : string) : list string :=
  let cleanSrc := Js.stripSlash (Js.stripDotSlash src) in
  let fileName := Js.pop (Js.split "/" cleanSrc) in
  let baseName := Js.toLowerCase fileName in
  [ src; cleanSrc; fileName; baseName;
    Js.stripExtension fileName; Js.stripExtension baseName ].

(** The first loop of [findImageUrl]. *)
Fixpoint tryAttempts (images : ImageIndex) (l : list string) : option url :=
  match l with
  | [] => None
  | attempt :: rest =>
      if JsMap.has attempt images then JsMap.get attempt images
      else tryAttempts images rest
  end.

(** The second loop of [findImageUrl], over [images.entries()]. *)
Fixpoint partialMatch (fileName : string) (es : list (string * url))
  : option url :=
  match es with
  | [] => None
  | (key, u) :: rest =>
      if Js.includes key fileName ||
         Js.includes fileName (Js.pop (Js.split "/" key))
      then Some u
      else partialMatch fileName rest
  end.

Definition findImageUrl (images : ImageIndex) (src : string) : option url :=
  let cleanSrc := Js.stripSlash (Js.stripDotSlash src) in
  let fileName := Js.pop (Js.split "/" cleanSrc) in
  match tryAttempts images (attempts src) with
  | Some u => Some u
  | None => partialMatch fileName (JsMap.entries images)
  end.

(** ** The parsed document tree *)

(** A node of the document [DOMParser] returns for ['text/xml'].  An
    element keeps its qualified name as written: in an XML document
    [tagName] is not upper-cased. *)
Inductive node : Type :=
| Element (tagName : string) (attributes : list (string * string))
          (childNodes : list node)
| Text (data : string)
| CDATASection (data : string)
| Comment (data : string)
| ProcessingInstruction (target data : string).

Module Dom.

Definition isElement (n : node) : bool :=
  match n with Element _ _ _ => true | _ => false end.

Definition tagName (n : node) : string :=
  match n with Element t _ _ => t | _ => EmptyString end.

Definition childNodes (n : node) : list node :=
  match n with Element _ _ k => k | _ => [] end.

(** [element.children]: the child nodes that are elements. *)
Definition children (n : node) : list node :=
  List.filter isElement (childNodes n).

(** [element.getAttribute(name)]; [None] stands for [null]. *)
Fixpoint lookupAttr (name : string) (l : list (string * string))
  : option string :=
  match l with
  | [] => None
  | (k, v) :: r => if String.eqb name k then Some v else lookupAttr name r
  end.

Definition getAttribute (n : node) (name : string) : option string :=
  match n with
  | Element _ attrs _ => lookupAttr name attrs
  | _ => None
  end.

(** [textContent] of an element: the data of its text and CDATA
    descendants in document order; comments and processing instructions
    are left out. *)
Fixpoint textContent (n : node) : string :=
  match n with
  | Element _ _ kids =>
      (fix go (l : list node) : string :=
         match l with
         | [] => EmptyString
         | Comment _ :: r => go r
         | ProcessingInstruction _ _ :: r => go r
         | c :: r => textContent c ++ go r
         end) kids
  | Text d => d
  | CDATASection d => d
  | Comment d => d
  | ProcessingInstruction _ d => d
  end.

(** The local part of a qualified name [prefix:local]. *)
Fixpoint afterColon (q : string) : option string :=
  match q with
  | EmptyString => None
  | String c r => if Ascii.eqb c ":" then Some r else afterColon r
  end.

Definition localName (q : string) : string :=
  match afterColon q with Some l => l | None => q end.

(** A selector list of type selectors such as ['tr, row'].  In an XML
    document a type selector is compared with the element's local name
    character by character: no case folding takes place. *)
Definition selector := list string.

Definition matchesName (sel : selector) (qname : string) : bool :=
  Js.inArray (localName qname) sel.

Definition matches (sel : selector) (n : node) : bool :=
  isElement n && matchesName sel (tagName n).

(** The descendant elements of [n] in document order, each with the tag
    names of its ancestors, nearest first; [anc] are the ancestors of [n]
    itself. *)
Fixpoint descendants (anc : list string) (n : node)
  : list (list string * node) :=
  match n with
  | Element t _ kids =>
      List.flat_map
        (fun c => if isElement c
                  then (t :: anc, c) :: descendants (t :: anc) c
                  else [])
        kids
  | _ => []
  end.

Definition querySelectorAll (sel : selector) (anc : list string) (n : node)
  : list (list string * node) :=
  List.filter (fun d => matches sel (snd d)) (descendants anc n).

Definition querySelector (sel : selector) (n : node) : option node :=
  match querySelectorAll sel [] n with
  | d :: _ => Some (snd d)
  | [] => None
  end.

(** [:scope > a, :scope > b]: the child elements that match. *)
Definition scopeChildren (sel : selector) (n : node) : list node :=
  List.filter (matches sel) (childNodes n).

(** [el.closest(sel)] as a condition: the element itself or one of its
    ancestors matches. *)
Definition closest (sel : selector) (anc : list string) (n : node) : bool :=
  existsb (matchesName sel) (tagName n :: anc).

Fixpoint height (n : node) : nat :=
  match n with
  | Element _ _ kids => S (List.list_max (List.map height kids))
  | _ => 0
  end.

End Dom.

(** ** HTML escaping *)

(** [escapeHtml]: the text is made the only child of a fresh [div] and
    [innerHTML] is read back.  The HTML fragment serialisation of a text
    node replaces ampersand, U+00A0, less-than and greater-than, and leaves
    every other character as it is. *)
Definition escapeChar (c : ascii) : string :=
  if Ascii.eqb c "&" then "&amp;"
  else if Ascii.eqb c "<" then "&lt;"
  else if Ascii.eqb c ">" then "&gt;"
  else if (Js.code c =? 160)%nat then "&nbsp;"
  else Js.chr c.

Fixpoint escapeHtml (text : string) : string :=
  match text with
  | EmptyString => EmptyString
  | String c r => escapeChar c ++ escapeHtml r
  end.

(** ** The element renderer *)

Module Html.

(** One attribute of a start tag, [ name="value"]. *)
Definition attr (name value : string) : string :=
  " " ++ name ++ "=" ++ Js.dq ++ value ++ Js.dq.

(** [<tag class="cls">body</tag>] *)
Definition wrap (tag cls body : string) : string :=
  "<" ++ tag ++ attr "class" cls ++ ">" ++ body ++ "</" ++ tag ++ ">".

(** [<tag class="cls" data-tag="name">body</tag>] *)
Definition wrapTagged (tag cls name body : string) : string :=
  "<" ++ tag ++ attr "class" cls ++ attr "data-tag" name ++ ">" ++ body ++
  "</" ++ tag ++ ">".

Definition imageError (message : string) : string :=
  wrap "div" "image-error" message.

End Html.

(** Running out of fuel is [None]; so is [renderElement] on a node that is
    not an element (in the source, a [TypeError]). *)
Definition bind {A B : Type} (a : option A) (f : A -> option B) : option B :=
  match a with Some x => f x | None => None end.

Notation "x <- a ;; b" := (bind a (fun x => b))
  (at level 61, a at next level, right associativity).

(** *** [renderImage] *)

Definition srcAttrs : list string :=
  ["src"; "href"; "url"; "source"; "file"; "path"; "xlink:href"].

(** The first loop of [renderImage]. *)
Fixpoint firstAttr (element : node) (attrs : list string) : option string :=
  match attrs with
  | [] => None
  | a :: rest =>
      match Js.given (Dom.getAttribute element a) with
      | Some value => Some value
      | None => firstAttr element rest
      end
  end.

(** The value of [imageSrc] when it is tested at line 379; [None] when it
    is falsy there. *)
Definition imageSource (element : node) : option string :=
  let imageSrc := firstAttr element srcAttrs in
  let imageSrc :=
    match imageSrc with
    | Some _ => imageSrc
    | None =>
        match Dom.querySelector ["source"; "src"; "file"; "path"] element with
        | Some sourceEl =>
            Js.given (Js.orElse (Some (Js.trim (Dom.textContent sourceEl)))
                                (Dom.getAttribute sourceEl "src"))
        | None => None
        end
    end in
  match imageSrc with
  | Some _ => imageSrc
  | None =>
      match Dom.childNodes element with
      | [Text _] => Js.given (Some (Js.trim (Dom.textContent element)))
      | _ => None
      end
  end.

(** Line 387-388. *)
Definition imageCaption (element : node) : string :=
  match Dom.querySelector ["caption"; "figcaption"; "title"; "alt"] element
  with
  | Some captionEl => Dom.textContent captionEl
  | None =>
      match Js.orElse (Dom.getAttribute element "alt")
                      (Js.orElse (Dom.getAttribute element "title")
                                 (Some EmptyString)) with
      | Some c => c
      | None => EmptyString
      end
  end.

Definition imageBlock (imageUrl : url) (caption : string) : string :=
  Js.nl ++ Js.repeat " " 16 ++
  "<div" ++ Html.attr "class" "xml-image-container" ++ ">" ++
  Js.nl ++ Js.repeat " " 20 ++
  "<img" ++ Html.attr "class" "xml-image" ++
  Html.attr "src" (urlString imageUrl) ++
  Html.attr "alt" (escapeHtml caption) ++ Html.attr "loading" "lazy" ++ ">" ++
  Js.nl ++ Js.repeat " " 20 ++
  (if Js.truthy caption
   then Html.wrap "div" "xml-image-caption" (escapeHtml caption)
   else EmptyString) ++
  Js.nl ++ Js.repeat " " 16 ++ "</div>" ++
  Js.nl ++ Js.repeat " " 12.

Definition renderImage (images : ImageIndex) (element : node) : string :=
  match imageSource element with
  | None => Html.imageError "Image source not found"
  | Some imageSrc =>
      let imageUrl := findImageUrl images imageSrc in
      let caption := imageCaption element in
      match imageUrl with
      | Some u => imageBlock u caption
      | None => Html.imageError ("Image not found: " ++ escapeHtml imageSrc)
      end
  end.

(** *** [renderChildren], [renderTable], [renderList]

    The three are written over the renderer [rec] they call back for child
    elements; [renderElement] below ties the knot.  [anc] holds the tag
    names of the ancestors of [element], nearest first: [renderTable] reads
    them through [closest]. *)

Section Helpers.
Variable rec : list string -> node -> option string.

(** The loop of [renderChildren] over [childNodes]; [here] are the
    ancestors of the nodes of the list. *)
Fixpoint renderNodes (here : list string) (nodes : list node)
         (html : string) : option string :=
  match nodes with
  | [] => Some html
  | Text text :: rest =>
      renderNodes here rest
        (if Js.truthy (Js.trim text) then html ++ escapeHtml text else html)
  | (Element _ _ _ as child) :: rest =>
      r <- rec here child ;;
      renderNodes here rest (html ++ r)
  | _ :: rest => renderNodes here rest html
  end.

Definition renderChildren (anc : list string) (element : node)
  : option string :=
  renderNodes (Dom.tagName element :: anc) (Dom.childNodes element)
              EmptyString.

(** [entries.forEach] of the alternative table structure. *)
Fixpoint renderEntries (entries : list (list string * node))
         (html : string) : option string :=
  match entries with
  | [] => Some html
  | (eanc, entry) :: rest =>
      c <- renderChildren eanc entry ;;
      renderEntries rest (html ++ "<td>" ++ c ++ "</td>")
  end.

(** [cells.forEach] of one row. *)
Fixpoint renderCells (isHeader : bool) (cells : list (list string * node))
         (html : string) : option string :=
  match cells with
  | [] => Some html
  | (canc, cell) :: rest =>
      let tag :=
        if isHeader || String.eqb (Js.toLowerCase (Dom.tagName cell)) "th"
        then "th" else "td" in
      c <- renderChildren canc cell ;;
      renderCells isHeader rest
        (html ++ "<" ++ tag ++ ">" ++ c ++ "</" ++ tag ++ ">")
  end.

(** [rows.forEach((row, index) => ...)]. *)
Fixpoint renderRows (rows : list (list string * node)) (index : nat)
         (html : string) : option string :=
  match rows with
  | [] => Some html
  | (ranc, row) :: rest =>
      let cells :=
        Dom.querySelectorAll ["td"; "th"; "cell"; "entry"] ranc row in
      let isHeader :=
        Dom.closest ["thead"] ranc row || Dom.closest ["header"] ranc row ||
        ((index =? 0)%nat &&
         match Dom.querySelector ["th"] row with
         | Some _ => true
         | None => false
         end) in
      html <- renderCells isHeader cells (html ++ "<tr>") ;;
      renderRows rest (S index) (html ++ "</tr>")
  end.

(** [thead] and [tbody] of the source are computed and never read; they
    are left out. *)
Definition renderTable (anc : list string) (element : node)
  : option string :=
  let html := "<table" ++ Html.attr "class" "xml-table" ++ ">" in
  let rows := Dom.querySelectorAll ["tr"; "row"] anc element in
  html <-
    match rows with
    | [] =>
        let entries :=
          Dom.querySelectorAll ["entry"; "cell"; "td"; "th"] anc element in
        match entries with
        | [] => Some html
        | _ =>
            html <- renderEntries entries (html ++ "<tbody><tr>") ;;
            Some (html ++ "</tr></tbody>")
        end
    | _ => renderRows rows 0 html
    end ;;
  Some (html ++ "</table>").

(** [items.forEach] of [renderList]. *)
Fixpoint renderItems (here : list string) (items : list node)
         (html : string) : option string :=
  match items with
  | [] => Some html
  | item :: rest =>
      c <- renderChildren here item ;;
      renderItems here rest (html ++ Html.wrap "li" "xml-list-item" c)
  end.

Definition renderList (anc : list string) (element : node)
           (listType : string) : option string :=
  let items := Dom.scopeChildren ["li"; "item"; "listitem"] element in
  let html := "<" ++ listType ++ Html.attr "class" "xml-list" ++ ">" in
  html <-
    match items with
    | [] => c <- renderChildren anc element ;; Some (html ++ c)
    | _ => renderItems (Dom.tagName element :: anc) items html
    end ;;
  Some (html ++ "</" ++ listType ++ ">").

End Helpers.

Definition blockTags : list string :=
  ["p"; "para"; "paragraph"; "div"; "section"; "table"; "ul"; "ol"; "list";
   "h1"; "h2"; "h3"; "h4"; "h5"; "h6"; "title"; "heading"; "blockquote";
   "figure"; "image"; "img"].

Definition hasBlockElements (element : node) : bool :=
  existsb (fun child =>
             Js.inArray (Js.toLowerCase (Dom.tagName child)) blockTags)
          (Dom.children element).

(** *** [renderElement]

    The [switch] on the lower-cased tag name, one test per group of [case]
    labels, in the order of the source. *)
Fixpoint renderElement (images : ImageIndex) (fuel : nat)
         (anc : list string) (element : node) : option string :=
  match fuel, element with
  | S fuel, Element tag _ _ =>
      let tagName := Js.toLowerCase tag in
      let renderChildren := renderChildren (renderElement images fuel) in
      let wrapped t cls :=
        (c <- renderChildren anc element ;; Some (Html.wrap t cls c)) in
      let oneOf := Js.inArray tagName in
      if oneOf ["img"; "image"; "figure"; "graphic"; "picture"] then
        Some (renderImage images element)
      else if oneOf ["table"] then
        renderTable (renderElement images fuel) anc element
      else if oneOf ["ul"; "ol"; "list"] then
        renderList (renderElement images fuel) anc element
                   (if String.eqb tagName "ol" then "ol" else "ul")
      else if oneOf ["li"; "item"; "listitem"] then wrapped "li" "xml-list-item"
      else if oneOf ["title"; "heading"; "h1"] then wrapped "h1" "xml-title"
      else if oneOf ["h2"; "subtitle"] then wrapped "h2" "xml-h2"
      else if oneOf ["h3"] then wrapped "h3" "xml-h3"
      else if oneOf ["p"; "para"; "paragraph"; "text"] then
        wrapped "p" "xml-paragraph"
      else if oneOf ["b"; "bold"; "strong"] then wrapped "strong" "xml-bold"
      else if oneOf ["i"; "italic"; "em"; "emphasis"] then
        wrapped "em" "xml-italic"
      else if oneOf ["u"; "underline"] then wrapped "u" "xml-underline"
      else if oneOf ["code"; "pre"; "programlisting"] then
        Some (Html.wrap "code" "xml-code"
                (escapeHtml (Dom.textContent element)))
      else if oneOf ["blockquote"; "quote"] then
        wrapped "blockquote" "xml-blockquote"
      else if oneOf ["a"; "link"; "xref"] then
        let href :=
          match Js.orElse (Dom.getAttribute element "href")
                  (Js.orElse (Dom.getAttribute element "url") (Some "#")) with
          | Some h => h
          | None => "#"
          end in
        c <- renderChildren anc element ;;
        Some ("<a" ++ Html.attr "class" "xml-link" ++
              Html.attr "href" (escapeHtml href) ++
              Html.attr "target" "_blank" ++ ">" ++ c ++ "</a>")
      else if oneOf ["br"; "break"; "linebreak"] then Some "<br>"
      else if oneOf ["hr"; "separator"; "pagebreak"; "page-break"] then
        Some ("<div" ++ Html.attr "class" "xml-page-break" ++ "></div>")
      else if oneOf ["section"; "div"; "block"; "chapter"] then
        wrapped "div" "xml-section"
      else if oneOf ["header"] then wrapped "div" "xml-header"
      else if oneOf ["footer"] then wrapped "div" "xml-footer"
      else if oneOf ["caption"; "figcaption"] then
        wrapped "div" "xml-image-caption"
      else if oneOf ["span"; "inline"] then wrapped "span" "xml-element"
      else
        let hasBlockChildren := hasBlockElements element in
        if hasBlockChildren ||
           (0 <? List.length (Dom.children element))%nat
        then
          c <- renderChildren anc element ;;
          Some (Html.wrapTagged "div" "xml-element-block" tagName c)
        else
          content <- renderChildren anc element ;;
          if Js.truthy (Js.trim content)
          then Some (Html.wrapTagged "span" "xml-element" tagName content)
          else Some EmptyString
  | _, _ => None
  end.

(** [renderCurrentXML] calls [renderElement] on the document element, which
    has no element above it.  The fuel is the height of the tree: each call
    of [renderElement] goes at least one level down. *)
Definition render (images : ImageIndex) (root : node) : option string :=
  renderElement images (Dom.height root) [] root.

(** ** The raw formatter *)

(** One attempt of the regexp [\s*<] at the start of [r]: the text after
    the match. *)
Fixpoint matchWsLt (r : string) : option string :=
  match r with
  | EmptyString => None
  | String c r' =>
      if Ascii.eqb c "<" then Some r'
      else if Js.is_ws c then matchWsLt r'
      else None
  end.

(** [xml.replace(/>\s*</g, '>\n<')]: the pattern is tried at each position
    from the left; after a match the search goes on behind it. *)
Equations? replaceGtLt (xml : string) : string
  by wf (String.length xml) lt :=
  replaceGtLt EmptyString := EmptyString;
  replaceGtLt (String c r)
    with Logic.inspect (if Ascii.eqb c ">" then matchWsLt r else None) := {
    | exist _ (Some r') _ := ">" ++ Js.nl ++ "<" ++ replaceGtLt r';
    | exist _ None _ := String c (replaceGtLt r) }.
Proof.
  destruct (Ascii.eqb c ">"); [|discriminate].
  clear -e. simpl. apply Nat.lt_lt_succ_r.
  revert r' e. induction r as [|d r IH]; simpl; intros r' H; [discriminate|].
  destruct (Ascii.eqb d "<").
  - injection H as <-. lia.
  - destruct (Js.is_ws d); [|discriminate].
    specialize (IH _ H). lia.
Qed.

(** The test that makes [formatXML] increase the indent after a line. *)
Definition opensElement (line : string) : bool :=
  Js.startsWith line "<" && negb (Js.startsWith line "</") &&
  negb (Js.startsWith line "<?") && negb (Js.startsWith line "<!") &&
  negb (Js.endsWith line "/>") && negb (Js.includes line "</").

(** The [for] loop of [formatXML]. *)
Fixpoint formatLines (lines : list string) (indent : nat)
         (formatted : string) : string :=
  match lines with
  | [] => formatted
  | line :: rest =>
      let line := Js.trim line in
      if negb (Js.truthy line) then formatLines rest indent formatted
      else
        let indent :=
          if Js.startsWith line "</" then Nat.max 0 (indent - 1)
          else indent in
        let formatted := formatted ++ Js.repeat "  " indent ++ line ++ Js.nl in
        let indent := if opensElement line then S indent else indent in
        formatLines rest indent formatted
  end.

Definition formatXML (xml : string) : string :=
  let lines := Js.split "010" (replaceGtLt xml) in
  Js.trim (formatLines lines 0 EmptyString).

(** ** The session: [processFile], [extractContents], [reset] *)

(** One entry of [zip.files]; [async('text')] of the entry gives [text]. *)
Record ZipEntry : Type := { dir : bool; text : string }.

(** An uploaded file: its name and what [JSZip.loadAsync] makes of it, the
    entries in the order of [Object.entries(zip.files)] or the message of
    the error it rejects with. *)
Record File : Type :=
  { fileName : string; loadAsync : string + list (string * ZipEntry) }.

Record XmlFile : Type :=
  { name : string; path : string; content : string;
    parsed : node; hasError : bool }.

Inductive Screen : Type :=
| UploadScreen
| LoadingScreen
| PreviewScreen
| ErrorScreen (message : string).

(** The fields of the viewer that the modelled methods read or write,
    together with the page's store of object URLs: [objectUrls] are the
    URLs created and not yet revoked, [nextUrl] the serial number of the
    next one. *)
Record Viewer : Type :=
  { xmlFiles : list XmlFile;
    currentXmlIndex : nat;
    images : ImageIndex;
    renderedView : string;
    rawView : string;
    screen : Screen;
    objectUrls : list url;
    nextUrl : url }.

(** The state the constructor leaves. *)
Definition newViewer : Viewer :=
  {| xmlFiles := []; currentXmlIndex := 0; images := JsMap.empty;
     renderedView := EmptyString; rawView := EmptyString;
     screen := UploadScreen; objectUrls := []; nextUrl := 0 |}.

Definition imageExtensions : list string :=
  ["jpg"; "jpeg"; "png"; "gif"; "bmp"; "svg"; "webp"; "tiff"; "tif"].

(** The first loop of [extractContents]: the XML entries and the paths of
    the image entries, in the order of the archive. *)
Fixpoint classify (files : list (string * ZipEntry))
  : list (string * ZipEntry) * list string :=
  match files with
  | [] => ([], [])
  | (path, zipEntry) :: rest =>
      let (xmls, imgs) := classify rest in
      if dir zipEntry then (xmls, imgs)
      else
        let fileName := Js.toLowerCase (Js.pop (Js.split "/" path)) in
        let extension := Js.pop (Js.split "." fileName) in
        (if String.eqb extension "xml" then (path, zipEntry) :: xmls
         else xmls,
         if Js.inArray extension imageExtensions then path :: imgs else imgs)
  end.

(** [URL.createObjectURL] and [URL.revokeObjectURL]. *)
Definition createObjectURL (v : Viewer) : url * Viewer :=
  (nextUrl v,
   {| xmlFiles := xmlFiles v; currentXmlIndex := currentXmlIndex v;
      images := images v; renderedView := renderedView v;
      rawView := rawView v; screen := screen v;
      objectUrls := objectUrls v ++ [nextUrl v];
      nextUrl := S (nextUrl v) |})%list.

Definition revokeObjectURL (u : url) (urls : list url) : list url :=
  List.filter (fun u' => negb (Nat.eqb u u')) urls.

Definition setImages (v : Viewer) (m : ImageIndex) : Viewer :=
  {| xmlFiles := xmlFiles v; currentXmlIndex := currentXmlIndex v;
     images := m; renderedView := renderedView v; rawView := rawView v;
     screen := screen v; objectUrls := objectUrls v; nextUrl := nextUrl v |}.

Definition setScreen (v : Viewer) (s : Screen) : Viewer :=
  {| xmlFiles := xmlFiles v; currentXmlIndex := currentXmlIndex v;
     images := images v; renderedView := renderedView v;
     rawView := rawView v; screen := s; objectUrls := objectUrls v;
     nextUrl := nextUrl v |}.

(** The loop of lines 154-170: one object URL per image, stored under its
    keys. *)
Fixpoint extractImages (imageFiles : list string) (v : Viewer) : Viewer :=
  match imageFiles with
  | [] => v
  | path :: rest =>
      let (u, v) := createObjectURL v in
      extractImages rest (setImages v (storeImage path u (images v)))
  end.

Section Session.
(** [DOMParser.parseFromString(content, 'text/xml')]: the document
    element, and whether the document holds a [parsererror]. *)
Variable parseXml : string -> node * bool.
(** [a.localeCompare(b, undefined, {numeric: true}) <= 0]. *)
Variable localeLe : string -> string -> bool.

(** [Array.prototype.sort] is stable; an insertion sort stands for it. *)
Fixpoint insertByName (x : string * ZipEntry)
         (l : list (string * ZipEntry)) : list (string * ZipEntry) :=
  match l with
  | [] => [x]
  | y :: r =>
      if localeLe (Js.pop (Js.split "/" (fst y)))
                  (Js.pop (Js.split "/" (fst x)))
      then y :: insertByName x r
      else x :: l
  end.

Definition sortByName (l : list (string * ZipEntry))
  : list (string * ZipEntry) :=
  List.fold_left (fun acc x => insertByName x acc) l [].

Definition parseFile (f : string * ZipEntry) : XmlFile :=
  let (root, err) := parseXml (text (snd f)) in
  {| name := Js.pop (Js.split "/" (fst f)); path := fst f;
     content := text (snd f); parsed := root; hasError := err |}.

(** [renderCurrentXML].  A [None] from the renderer stands for an
    exception, which leaves both views as they were; [render_total] shows
    that it does not occur when [parsed] is an element. *)
Definition renderCurrentXML (v : Viewer) : option Viewer :=
  match List.nth_error (xmlFiles v) (currentXmlIndex v) with
  | None => Some v
  | Some xmlFile =>
      html <- render (images v) (parsed xmlFile) ;;
      Some {| xmlFiles := xmlFiles v; currentXmlIndex := currentXmlIndex v;
              images := images v;
              renderedView := Html.wrap "div" "xml-document" html;
              rawView := formatXML (content xmlFile);
              screen := screen v; objectUrls := objectUrls v;
              nextUrl := nextUrl v |}
  end.

(** [extractContents]: the viewer it leaves, and the message of the
    error it throws, if any. *)
Definition extractContents (v : Viewer) (files : list (string * ZipEntry))
  : Viewer * option string :=
  let (xmls, imageFiles) := classify files in
  match xmls with
  | [] => (v, Some "No XML file found in the ZIP")
  | _ =>
      let v :=
        {| xmlFiles := List.map parseFile (sortByName xmls);
           currentXmlIndex := currentXmlIndex v; images := images v;
           renderedView := renderedView v; rawView := rawView v;
           screen := screen v; objectUrls := objectUrls v;
           nextUrl := nextUrl v |} in
      let v := extractImages imageFiles v in
      let v :=
        {| xmlFiles := xmlFiles v; currentXmlIndex := 0;
           images := images v; renderedView := renderedView v;
           rawView := rawView v; screen := screen v;
           objectUrls := objectUrls v; nextUrl := nextUrl v |} in
      match renderCurrentXML v with
      | Some v' => (v', None)
      | None => (v, Some "rendering failed")
      end
  end.

Definition showError (v : Viewer) (message : string) : Viewer :=
  setScreen v (ErrorScreen message).

Definition processFile (v : Viewer) (file : File) : Viewer :=
  if negb (Js.endsWith (fileName file) ".zip")
  then showError v "Please upload a ZIP file"
  else
    let v := setScreen v LoadingScreen in
    match loadAsync file with
    | inl message =>
        showError v ("Failed to process ZIP file: " ++ message)
    | inr files =>
        match extractContents v files with
        | (v, None) => setScreen v PreviewScreen
        | (v, Some message) =>
            showError v ("Failed to process ZIP file: " ++ message)
        end
    end.

End Session.

(** The loop of [reset] over [images.values()]. *)
Definition revokeAll (urls : list url) (live : list url) : list url :=
  List.fold_left (fun live u => revokeObjectURL u live) urls live.

Definition reset (v : Viewer) : Viewer :=
  {| xmlFiles := []; currentXmlIndex := 0; images := JsMap.empty;
     renderedView := EmptyString; rawView := EmptyString;
     screen := UploadScreen;
     objectUrls := revokeAll (JsMap.values (images v)) (objectUrls v);
     nextUrl := nextUrl v |}.

(** ** The specification's wording, for comparison *)

(** The keys the specification lists for one asset: full relative path,
    full path lower-cased, file name only, file name lower-cased, file name
    without extension in both cases. *)
Definition specKeys (path : string) : list string :=
  let fileName := Js.pop (Js.split "/" path) in
  [ path; Js.toLowerCase path; fileName; Js.toLowerCase fileName;
    Js.stripExtension fileName; Js.toLowerCase (Js.stripExtension fileName) ].

(** The keys [storeImage] writes. *)
Definition derivedKeys (path : string) : list string :=
  let fileName := Js.pop (Js.split "/" path) in
  [ path; fileName; Js.toLowerCase fileName;
    Js.stripExtension fileName; Js.toLowerCase (Js.stripExtension fileName) ].

Fixpoint hasSlash (s : string) : bool :=
  match s with
  | EmptyString => false
  | String c r => Ascii.eqb c "/" || hasSlash r
  end.

(** The substring after the last slash, or the whole string if it has
    none. *)
Fixpoint afterLastSlash (s : string) : string :=
  match s with
  | EmptyString => EmptyString
  | String c r =>
      if hasSlash r then afterLastSlash r
      else if Ascii.eqb c "/" then r else s
  end.

Definition stripLeading (p s : string) : string :=
  if String.prefix p s
  then String.substring (String.length p) (String.length s - String.length p) s
  else s.

(** *** Plain readings of the string notions the specification uses

    These are written without any of the functions of [Js], from the
    meaning of the words; the properties compare them with the code. *)

(** The capitals below 256 and their small letters. *)
Definition capitalTable : list (ascii * ascii) :=
  (List.combine (list_ascii_of_string "ABCDEFGHIJKLMNOPQRSTUVWXYZ")
                (list_ascii_of_string "abcdefghijklmnopqrstuvwxyz") ++
   List.map (fun n => (ascii_of_nat n, ascii_of_nat (n + 32)))
            (List.seq 192 23 ++ List.seq 216 7))%list.

Definition specLowerChar (c : ascii) : ascii :=
  match List.find (fun p => Ascii.eqb (fst p) c) capitalTable with
  | Some p => snd p
  | None => c
  end.

(** Lower-cased. *)
Definition specLower (s : string) : string :=
  string_of_list_ascii (List.map specLowerChar (list_ascii_of_string s)).

Fixpoint containsDot (s : string) : bool :=
  match s with
  | EmptyString => false
  | String c r => Ascii.eqb c "." || containsDot r
  end.

(** The final extension stripped: the last dot and what follows it are
    removed, when something follows it. *)
Fixpoint specStripExt (s : string) : string :=
  match s with
  | EmptyString => EmptyString
  | String c r =>
      if containsDot r then String c (specStripExt r)
      else if Ascii.eqb c "."
           then match r with EmptyString => s | String _ _ => EmptyString end
           else s
  end.

(** [s] contains [t] as a substring: [t] is the substring of [s] at some
    position. *)
Definition specContains (s t : string) : bool :=
  List.existsb
    (fun i => String.eqb (String.substring i (String.length t) s) t)
    (List.seq 0 (S (String.length s))).

(** Escaped for element content: ampersand, the angle brackets and the
    no-break space as entities, every other character as it is. *)
Definition specEntity (c : ascii) : string :=
  let n := N_of_ascii c in
  if N.eqb n 38 then "&amp;"
  else if N.eqb n 60 then "&lt;"
  else if N.eqb n 62 then "&gt;"
  else if N.eqb n 160 then "&nbsp;"
  else String c EmptyString.

Definition specEscape (text : string) : string :=
  String.concat EmptyString
    (List.map specEntity (list_ascii_of_string text)).

(** Blank: nothing but white space (TAB, LF, VT, FF, CR, SPACE, NBSP). *)
Definition isBlank (s : string) : bool :=
  List.forallb
    (fun c => List.existsb (N.eqb (N_of_ascii c)) [9; 10; 11; 12; 13; 32; 160]%N)
    (list_ascii_of_string s).

(** The two conditions of the unknown-tag rule, on the direct children. *)
Definition hasChildElement (kids : list node) : bool :=
  List.existsb
    (fun k => match k with Element _ _ _ => true | _ => false end) kids.

Definition hasBlockChild (kids : list node) : bool :=
  List.existsb
    (fun k =>
       match k with
       | Element t _ _ =>
           List.existsb (String.eqb (specLower t))
             [ "p"; "para"; "paragraph"; "div"; "section"; "table";
               "ul"; "ol"; "list"; "h1"; "h2"; "h3"; "h4"; "h5"; "h6";
               "title"; "heading"; "blockquote"; "figure"; "image"; "img" ]
       | _ => false
       end) kids.

(** Section 4.2 of the specification, step by step. *)
Definition resolveSpec (index : ImageIndex) (reference : string)
  : option url :=
  let cleanRef := stripLeading "/" (stripLeading "./" reference) in
  let fileName := afterLastSlash cleanRef in
  let baseName := specLower fileName in
  match JsMap.get reference index with
  | Some h => Some h
  | None =>
  match JsMap.get cleanRef index with
  | Some h => Some h
  | None =>
  match JsMap.get fileName index with
  | Some h => Some h
  | None =>
  match JsMap.get baseName index with
  | Some h => Some h
  | None =>
  match JsMap.get (specStripExt fileName) index with
  | Some h => Some h
  | None =>
  match JsMap.get (specStripExt baseName) index with
  | Some h => Some h
  | None =>
      option_map snd
        (List.find (fun kh => specContains (fst kh) fileName ||
                              specContains fileName (afterLastSlash (fst kh)))
           index)
  end end end end end end.

(** Every tag of the dispatch table of section 4.3. *)
Definition dispatchTable : list string :=
  [ "img"; "image"; "figure"; "graphic"; "picture"; "table";
    "ul"; "ol"; "list"; "li"; "item"; "listitem";
    "title"; "heading"; "h1"; "h2"; "subtitle"; "h3";
    "p"; "para"; "paragraph"; "text"; "b"; "bold"; "strong";
    "i"; "italic"; "em"; "emphasis"; "u"; "underline";
    "code"; "pre"; "programlisting"; "blockquote"; "quote";
    "a"; "link"; "xref"; "br"; "break"; "linebreak";
    "hr"; "separator"; "pagebreak"; "page-break";
    "section"; "div"; "block"; "chapter"; "header"; "footer";
    "caption"; "figcaption"; "span"; "inline" ].

Definition imageTags : list string :=
  ["img"; "image"; "figure"; "graphic"; "picture"].

Definition captionSelector : Dom.selector :=
  ["caption"; "figcaption"; "title"; "alt"].

(** The caption as the specification words it: the first non-empty of the
    text of a matching descendant, the [alt] attribute, the [title]
    attribute; else empty. *)
Definition captionSpec (element : node) : string :=
  match
    Js.orElse (option_map Dom.textContent
                 (Dom.querySelector captionSelector element))
      (Js.orElse (Dom.getAttribute element "alt")
                 (Dom.getAttribute element "title"))
  with
  | Some c => c
  | None => EmptyString
  end.

(** The same tree with every tag name lower-cased. *)
Fixpoint lowerTags (n : node) : node :=
  match n with
  | Element t attrs kids =>
      Element (Js.toLowerCase t) attrs (List.map lowerTags kids)
  | _ => n
  end.

(** ** Notions used to reason about the raw formatter *)

Fixpoint allWs (s : string) : bool :=
  match s with
  | EmptyString => true
  | String c r => Js.is_ws c && allWs r
  end.

Fixpoint hasNl (s : string) : bool :=
  match s with
  | EmptyString => false
  | String c r => Ascii.eqb c "010" || hasNl r
  end.

(** The lines the loop of [formatXML] does not skip, trimmed. *)
Definition cleanLines (lines : list string) : list string :=
  List.filter Js.truthy (List.map Js.trim lines).

Definition contentLines (xml : string) : list string :=
  cleanLines (Js.split "010" (replaceGtLt xml)).

(** What the loop appends for a list of trimmed, non-empty lines. *)
Fixpoint emitLines (lines : list string) (indent : nat) : string :=
  match lines with
  | [] => EmptyString
  | line :: rest =>
      let indent :=
        if Js.startsWith line "</" then Nat.max 0 (indent - 1) else indent in
      Js.repeat "  " indent ++ line ++ Js.nl ++
      emitLines rest (if opensElement line then S indent else indent)
  end.

(** [s] appended to the last string of a list. *)
Fixpoint snocLast (l : list string) (s : string) : list string :=
  match l with
  | [] => [s]
  | [x] => [x ++ s]
  | x :: r => x :: snocLast r s
  end.

(** ** Notions used to state further properties *)

(** The file name part [findImageUrl] computes for a reference. *)
Definition fileNameOf (src : string) : string :=
  Js.pop (Js.split "/" (Js.stripSlash (Js.stripDotSlash src))).

(** The extension [extractContents] computes for an archive path. *)
Definition extensionOf (path : string) : string :=
  Js.pop (Js.split "." (Js.toLowerCase (Js.pop (Js.split "/" path)))).

(** The name [extractContents] sorts an XML entry by. *)
Definition entryName (x : string * ZipEntry) : string :=
  Js.pop (Js.split "/" (fst x)).

(** The order [sortByName] establishes, for a comparison [localeLe]. *)
Definition nameLe (localeLe : string -> string -> bool)
           (a b : string * ZipEntry) : Prop :=
  localeLe (entryName a) (entryName b) = true.

(** The child nodes [renderChildren] does not pass over: elements and
    text nodes that are not blank. *)
Definition visibleNode (n : node) : bool :=
  match n with
  | Element _ _ _ => true
  | Text text => Js.truthy (Js.trim text)
  | _ => false
  end.

(** Every handle of the index is a live object URL, and every live object
    URL was handed out before [nextUrl]. *)
Definition handlesLive (v : Viewer) : Prop :=
  (forall u, In u (JsMap.values (images v)) -> In u (objectUrls v)) /\
  (forall u, In u (objectUrls v) -> u < nextUrl v).

(** Two small archives and a parser stub, for closed examples. *)
Definition archiveA : File :=
  {| fileName := "a.zip";
     loadAsync := inr [ ("a.xml", {| dir := false; text := "<doc/>" |});
                        ("img/a.png", {| dir := false; text := "" |}) ] |}.

Definition archiveB : File :=
  {| fileName := "b.zip";
     loadAsync := inr [ ("b.xml", {| dir := false; text := "<doc/>" |});
                        ("img/b.png", {| dir := false; text := "" |}) ] |}.

(** An archive with two images of the same file name. *)
Definition archiveX : File :=
  {| fileName := "x.zip";
     loadAsync := inr [ ("doc.xml", {| dir := false; text := "<doc/>" |});
                        ("x.png", {| dir := false; text := "" |});
                        ("b/x.png", {| dir := false; text := "" |}) ] |}.

Definition parseStub (content : string) : node * bool :=
  (Element "doc" [] [], false).

(* ===================================================================== *)
(** * Properties                                                          *)
(* ===================================================================== *)

(** ** Examples of the string primitives *)

Example split_ex : Js.split "/" "a/b/c.png" = ["a"; "b"; "c.png"].
Proof. reflexivity. Qed.

Example strip_ex : Js.stripExtension "archive.tar.gz" = "archive.tar".
Proof. reflexivity. Qed.

Example strip_ex2 : Js.stripExtension "photo." = "photo.".
Proof. reflexivity. Qed.

Example scenarioA :
  findImageUrl (storeImage "multimedia/photo.png" 7 JsMap.empty)
               "multimedia/photo.PNG" = Some 7.
Proof. reflexivity. Qed.



Example formatXML_ex :
  formatXML "<a><b>t</b>  <c/></a>" =
  "<a>" ++ Js.nl ++ "  <b>t</b>" ++ Js.nl ++ "  <c/>" ++ Js.nl ++ "</a>".
Proof. vm_compute. reflexivity. Qed.

(** ** Strings *)

Lemma append_nil_r (s : string) : s ++ "" = s.
Proof. induction s; simpl; congruence. Qed.

Lemma append_assoc (a b c : string) : (a ++ b) ++ c = a ++ (b ++ c).
Proof. induction a; simpl; congruence. Qed.

Lemma prefix_nil (s : string) : String.prefix "" s = true.
Proof. destruct s; reflexivity. Qed.

Lemma includes_nil (s : string) : Js.includes s "" = true.
Proof. destruct s; reflexivity. Qed.

Lemma substring_all (s : string) : String.substring 0 (String.length s) s = s.
Proof. induction s; simpl; congruence. Qed.

Lemma split_nonempty sep s : Js.split sep s <> [].
Proof.
  destruct s as [|c r]; simpl; [discriminate|].
  destruct (Ascii.eqb c sep); [discriminate|].
  destruct (Js.split sep r); discriminate.
Qed.

Lemma split_noSlash (r : string) :
  hasSlash r = false -> Js.split "/" r = [r].
Proof.
  induction r as [|d r IH]; [reflexivity|].
  simpl. intros H. apply orb_false_iff in H as [E H].
  rewrite E, (IH H). reflexivity.
Qed.

Lemma split_withSlash (r : string) :
  hasSlash r = true -> exists h h' t, Js.split "/" r = h :: h' :: t.
Proof.
  induction r as [|d r IH]; [discriminate|].
  simpl. destruct (Ascii.eqb d "/") eqn:E; simpl; intros H.
  - destruct (Js.split "/" r) as [|h t] eqn:S; [now apply split_nonempty in S|].
    now exists "", h, t.
  - destruct (IH H) as (h & h' & t & ->). now exists (String d h), h', t.
Qed.

Lemma pop_split_afterLastSlash (s : string) :
  Js.pop (Js.split "/" s) = afterLastSlash s.
Proof.
  unfold Js.pop. induction s as [|c r IH]; [reflexivity|].
  simpl. destruct (hasSlash r) eqn:H.
  - destruct (split_withSlash r H) as (h & h' & t & S).
    rewrite S in *. rewrite <- IH.
    destruct (Ascii.eqb c "/"); reflexivity.
  - rewrite (split_noSlash r H).
    destruct (Ascii.eqb c "/"); reflexivity.
Qed.

Lemma prefix_cons a p b s :
  String.prefix (String a p) (String b s) = Ascii.eqb a b && String.prefix p s.
Proof.
  simpl. destruct (ascii_dec a b) as [->|N].
  - now rewrite Ascii.eqb_refl.
  - apply Ascii.eqb_neq in N. now rewrite N.
Qed.

Lemma stripLeading_dotSlash s : stripLeading "./" s = Js.stripDotSlash s.
Proof.
  unfold stripLeading.
  destruct s as [|a [|b r]]; try reflexivity.
  - rewrite prefix_cons. simpl. now rewrite andb_false_r.
  - rewrite !prefix_cons, prefix_nil, andb_true_r.
    rewrite (Ascii.eqb_sym "." a), (Ascii.eqb_sym "/" b).
    unfold Js.stripDotSlash.
    destruct (Ascii.eqb a "." && Ascii.eqb b "/"); [|reflexivity].
    simpl. rewrite Nat.sub_0_r. apply substring_all.
Qed.

Lemma stripLeading_slash s : stripLeading "/" s = Js.stripSlash s.
Proof.
  unfold stripLeading. destruct s as [|a r]; [reflexivity|].
  rewrite prefix_cons, prefix_nil, andb_true_r.
  rewrite (Ascii.eqb_sym "/" a). unfold Js.stripSlash.
  destruct (Ascii.eqb a "/"); [|reflexivity].
  simpl. rewrite Nat.sub_0_r. apply substring_all.
Qed.

(** ** The image index *)

Lemma get_set_eq {V} (k : string) (v : V) (m : JsMap.t V) :
  JsMap.get k (JsMap.set k v m) = Some v.
Proof.
  induction m as [|[k' v'] m IH]; simpl.
  - now rewrite String.eqb_refl.
  - destruct (String.eqb k k') eqn:E; simpl; rewrite E; auto.
Qed.

Lemma get_set_neq {V} (k k' : string) (v : V) (m : JsMap.t V) :
  k <> k' -> JsMap.get k (JsMap.set k' v m) = JsMap.get k m.
Proof.
  intros N. induction m as [|[k0 v0] m IH]; simpl.
  - apply String.eqb_neq in N. now rewrite N.
  - destruct (String.eqb k' k0) eqn:E; simpl.
    + apply String.eqb_eq in E. subst k0.
      apply String.eqb_neq in N. now rewrite N.
    + now rewrite IH.
Qed.

Lemma get_In_values {V} (k : string) (v : V) (m : JsMap.t V) :
  JsMap.get k m = Some v -> In v (JsMap.values m).
Proof.
  induction m as [|[k' v'] m IH]; simpl; [discriminate|].
  destruct (String.eqb k k'); intros H.
  - injection H as ->. now left.
  - right. now apply IH.
Qed.

Lemma get_storeImage_in path u images k :
  In k (derivedKeys path) ->
  JsMap.get k (storeImage path u images) = Some u.
Proof.
  unfold derivedKeys, storeImage. cbv zeta.
  set (fullName := Js.pop (Js.split "/" path)).
  set (ext := Js.stripExtension fullName).
  intros H.
  destruct (string_dec k (Js.toLowerCase ext)) as [->|N5];
    [apply get_set_eq | rewrite get_set_neq by assumption].
  destruct (string_dec k ext) as [->|N4];
    [apply get_set_eq | rewrite get_set_neq by assumption].
  destruct (string_dec k path) as [->|N3];
    [apply get_set_eq | rewrite get_set_neq by assumption].
  destruct (string_dec k (Js.toLowerCase fullName)) as [->|N2];
    [apply get_set_eq | rewrite get_set_neq by assumption].
  destruct (string_dec k fullName) as [->|N1]; [apply get_set_eq|].
  simpl in H. intuition congruence.
Qed.

Lemma get_storeImage_out path u images k :
  ~ In k (derivedKeys path) ->
  JsMap.get k (storeImage path u images) = JsMap.get k images.
Proof.
  unfold derivedKeys, storeImage. cbv zeta. simpl. intros H.
  rewrite !get_set_neq; intuition.
Qed.

Lemma extractImages_untouched files v k :
  (forall p, In p files -> ~ In k (derivedKeys p)) ->
  JsMap.get k (images (extractImages files v)) = JsMap.get k (images v).
Proof.
  revert v. induction files as [|p files IH]; intros v H; [reflexivity|].
  simpl. rewrite IH by (intros; apply H; now right).
  simpl. apply get_storeImage_out. apply H. now left.
Qed.

(** C4 helper: one step of the first loop. *)
Lemma tryAttempts_cons images a l :
  tryAttempts images (a :: l) =
  match JsMap.get a images with
  | Some h => Some h
  | None => tryAttempts images l
  end.
Proof. simpl. unfold JsMap.has. now destruct (JsMap.get a images). Qed.

(** *** The plain readings agree with the code *)

Lemma lower_char_spec c : Js.lower_char c = specLowerChar c.
Proof. destruct c as [[] [] [] [] [] [] [] []]; vm_compute; reflexivity. Qed.

Lemma toLowerCase_spec s : Js.toLowerCase s = specLower s.
Proof.
  unfold specLower. induction s as [|c s IH]; [reflexivity|].
  simpl. now rewrite IH, lower_char_spec.
Qed.

Lemma containsDot_noDot s : containsDot s = negb (Js.noDot s).
Proof.
  induction s as [|c s IH]; [reflexivity|].
  simpl. rewrite IH. now destruct (Ascii.eqb c ".").
Qed.

Lemma stripExtension_noDot s : Js.noDot s = true -> Js.stripExtension s = s.
Proof.
  induction s as [|c s IH]; [reflexivity|].
  simpl. intros H. apply andb_true_iff in H as [Hc Hs].
  apply negb_true_iff in Hc. rewrite Hc. simpl. now rewrite IH.
Qed.

Lemma stripExtension_spec s : Js.stripExtension s = specStripExt s.
Proof.
  induction s as [|c s IH]; [reflexivity|].
  simpl. rewrite containsDot_noDot.
  destruct (Js.noDot s) eqn:N; simpl.
  - destruct (Ascii.eqb c "."); simpl.
    + destruct s; reflexivity.
    + now rewrite stripExtension_noDot.
  - rewrite andb_false_r. now rewrite IH.
Qed.

Lemma prefix_substring t s :
  String.prefix t s = String.eqb (String.substring 0 (String.length t) s) t.
Proof.
  destruct (String.eqb_spec (String.substring 0 (String.length t) s) t)
    as [E|N].
  - now apply String.prefix_correct.
  - destruct (String.prefix t s) eqn:P; [|reflexivity].
    apply String.prefix_correct in P. contradiction.
Qed.

Lemma existsb_seq_shift (f : nat -> bool) n len :
  List.existsb f (List.seq (S n) len) =
  List.existsb (fun i => f (S i)) (List.seq n len).
Proof.
  revert n. induction len as [|len IH]; intros n; [reflexivity|].
  simpl. now rewrite IH.
Qed.

Lemma includes_spec s t : Js.includes s t = specContains s t.
Proof.
  unfold specContains. induction s as [|c s IH].
  - simpl. rewrite orb_false_r. destruct t; reflexivity.
  - cbn [Js.includes]. rewrite IH, prefix_substring.
    change (List.seq 0 (S (String.length (String c s))))
      with (0 :: List.seq 1 (S (String.length s))).
    cbn [List.existsb]. f_equal. rewrite existsb_seq_shift. reflexivity.
Qed.

Lemma specEntity_spec c : escapeChar c = specEntity c.
Proof. destruct c as [[] [] [] [] [] [] [] []]; vm_compute; reflexivity. Qed.

Lemma escapeHtml_spec text : escapeHtml text = specEscape text.
Proof.
  unfold specEscape. induction text as [|c r IH]; [reflexivity|].
  simpl. rewrite IH, specEntity_spec.
  destruct (List.map specEntity (list_ascii_of_string r)); simpl.
  - apply append_nil_r.
  - reflexivity.
Qed.

Lemma is_ws_spec c :
  Js.is_ws c =
  List.existsb (N.eqb (N_of_ascii c)) [9; 10; 11; 12; 13; 32; 160]%N.
Proof. destruct c as [[] [] [] [] [] [] [] []]; vm_compute; reflexivity. Qed.

Lemma allWs_isBlank s : allWs s = isBlank s.
Proof.
  unfold isBlank. induction s as [|c s IH]; [reflexivity|].
  simpl. now rewrite IH, is_ws_spec.
Qed.

Lemma truthy_trim_allWs s : Js.truthy (Js.trim s) = negb (allWs s).
Proof.
  unfold Js.trim. induction s as [|c s IH]; [reflexivity|].
  simpl. destruct (Js.is_ws c) eqn:C; [exact IH|].
  simpl. rewrite C. reflexivity.
Qed.

Lemma partialMatch_find fileName (es : list (string * url)) :
  partialMatch fileName es =
  option_map snd
    (List.find (fun kh => specContains (fst kh) fileName ||
                          specContains fileName (afterLastSlash (fst kh)))
       es).
Proof.
  induction es as [|[k u] es IH]; [reflexivity|].
  simpl. rewrite pop_split_afterLastSlash, !includes_spec.
  destruct (specContains k fileName ||
            specContains fileName (afterLastSlash k));
    [reflexivity | exact IH].
Qed.

(** C4. [findImageUrl] is the resolver of section 4.2: the reference with
    one leading [./] and one leading [/] removed is cleanRef, the text after
    its last slash is fileName, the six exact lookups are tried in the
    order reference, cleanRef, fileName, lower-cased fileName, fileName
    without its final extension, lower-cased fileName without its final
    extension, the first hit is returned; failing these, the first
    registered pair is returned whose key contains fileName or whose last
    path segment is contained in fileName; otherwise the result is
    notFound.  Lower-casing, stripping of the final extension and
    containment are those of the plain readings [specLower],
    [specStripExt] and [specContains], not the functions of the code.  And
    the reference [multimedia/photo.PNG] resolves to the asset registered
    at path [multimedia/photo.png]. *)
Theorem findImageUrl_is_resolver :
  (forall (index : ImageIndex) (reference : string),
      findImageUrl index reference = resolveSpec index reference) /\
  (forall u : url,
      findImageUrl (storeImage "multimedia/photo.png" u JsMap.empty)
                   "multimedia/photo.PNG" = Some u).
Proof.
  split.
  - intros index reference. unfold findImageUrl, resolveSpec, attempts.
    cbv zeta. rewrite stripLeading_dotSlash, stripLeading_slash.
    rewrite pop_split_afterLastSlash. rewrite !tryAttempts_cons.
    rewrite !toLowerCase_spec, !stripExtension_spec.
    repeat match goal with
           | |- context [JsMap.get ?k index] =>
               destruct (JsMap.get k index); [reflexivity|]
           end.
    simpl tryAttempts. apply partialMatch_find.
  - intros u. reflexivity.
Qed.

(** C2, as amended.  After the image loop of [extractContents], started
    from any viewer, the asset at position [i] of the archive's image list
    has the handle [nextUrl v + i] (the [i]-th object URL the loop creates),
    and every key it derives -- its full path, its file name, the file
    name lower-cased, the file name without its final extension, and that
    lower-cased -- is mapped to this handle, provided no asset registered
    after it derives the same key: on a collision the last-registered
    asset wins.  (The full path lower-cased is not among the keys.) *)
Theorem image_index_keys :
  forall (files : list string) (v : Viewer) (i : nat) (path k : string),
    List.nth_error files i = Some path ->
    In k (derivedKeys path) ->
    (forall j path', i < j -> List.nth_error files j = Some path' ->
                     ~ In k (derivedKeys path')) ->
    JsMap.get k (images (extractImages files v)) = Some (nextUrl v + i).
Proof.
  induction files as [|p files IH]; intros v i path0 k Hi Hk Hlast.
  - destruct i; discriminate.
  - destruct i as [|i]; simpl in Hi.
    + injection Hi as ->. simpl.
      rewrite extractImages_untouched.
      * simpl. rewrite Nat.add_0_r. now apply get_storeImage_in.
      * intros p' Hp'. apply In_nth_error in Hp' as [j Hj].
        apply (Hlast (S j)); [lia | exact Hj].
    + simpl. erewrite IH; eauto.
      * simpl. f_equal. lia.
      * intros j p' Hlt Hj. apply (Hlast (S j)); [lia | exact Hj].
Qed.

Lemma image_index_keys_witness :
  JsMap.get "x.png"
    (images (extractImages ["a/x.png"; "b/x.png"] newViewer)) =
  Some (nextUrl newViewer + 1).
Proof.
  apply (image_index_keys ["a/x.png"; "b/x.png"] newViewer 1 "b/x.png" "x.png").
  - reflexivity.
  - simpl. auto.
  - intros j p' Hlt Hj. destruct j as [|[|[|j]]]; simpl in Hj;
      try discriminate; lia.
Defined.

(** The five keys the code derives are among the six of the
    specification. *)
Lemma derivedKeys_specKeys (path : string) :
  incl (derivedKeys path) (specKeys path).
Proof.
  intros k H. unfold derivedKeys, specKeys in *. simpl in *. intuition.
Qed.

(** C2, as stated, fails: the lower-cased full path is one of the keys the
    specification lists, and the index built from the one asset
    [Multimedia/Photo.png] has no entry for it. *)
Lemma image_index_lacks_lowercased_path :
  In "multimedia/photo.png" (specKeys "Multimedia/Photo.png") /\
  JsMap.get "multimedia/photo.png"
    (images (extractImages ["Multimedia/Photo.png"] newViewer)) = None.
Proof. split; [simpl; auto | reflexivity]. Qed.

(** ** The resolver on a reference without file name *)

Lemma endsWith_cons c r p :
  Js.endsWith (String c r) p = String.eqb (String c r) p || Js.endsWith r p.
Proof. reflexivity. Qed.

Lemma eqb_single c r d :
  String.eqb (String c r) (Js.chr d) = Ascii.eqb c d && negb (Js.truthy r).
Proof. destruct r; simpl; destruct (Ascii.eqb c d); reflexivity. Qed.

Lemma endsWith_hasSlash (s : string) :
  Js.endsWith s "/" = true -> hasSlash s = true.
Proof.
  induction s as [|c r IH]; [discriminate|].
  rewrite endsWith_cons. change "/" with (Js.chr "/").
  rewrite eqb_single. simpl hasSlash.
  destruct (Ascii.eqb c "/"); [reflexivity|]. simpl. exact IH.
Qed.

Lemma endsWith_slash_pop (s : string) :
  Js.endsWith s "/" = true -> Js.pop (Js.split "/" s) = "".
Proof.
  rewrite pop_split_afterLastSlash.
  induction s as [|c r IH]; [discriminate|].
  rewrite endsWith_cons. change "/" with (Js.chr "/").
  rewrite eqb_single. simpl afterLastSlash. intros H.
  apply orb_true_iff in H as [H|H].
  - apply andb_true_iff in H as [-> H]. destruct r; [reflexivity|discriminate].
  - rewrite (endsWith_hasSlash r H). now apply IH.
Qed.

Lemma endsWith_tail c r p :
  Js.endsWith (String c r) p = true -> r <> "" -> p <> String c r ->
  Js.endsWith r p = true.
Proof.
  rewrite endsWith_cons. intros H _ N.
  apply orb_true_iff in H as [H|H]; [|exact H].
  apply String.eqb_eq in H. congruence.
Qed.

Lemma fileName_empty (src : string) :
  src = "" \/ Js.endsWith src "/" = true ->
  Js.pop (Js.split "/" (Js.stripSlash (Js.stripDotSlash src))) = "".
Proof.
  intros [->|H]; [reflexivity|].
  assert (E : forall s, Js.endsWith s "/" = true ->
                   Js.stripSlash s = "" \/ Js.endsWith (Js.stripSlash s) "/" = true).
  { intros [|a r] Hs; [discriminate|]. unfold Js.stripSlash.
    destruct (Ascii.eqb a "/") eqn:Ea; [|now right].
    destruct r as [|b r]; [now left|]. right.
    apply endsWith_tail in Hs; [exact Hs | discriminate | discriminate]. }
  assert (D : Js.stripDotSlash src = "" \/
              Js.endsWith (Js.stripDotSlash src) "/" = true).
  { destruct src as [|a [|b r]]; try (now right). unfold Js.stripDotSlash.
    destruct (Ascii.eqb a "." && Ascii.eqb b "/") eqn:Eab; [|now right].
    destruct r as [|c r]; [now left|]. right.
    apply endsWith_tail in H; [|discriminate|discriminate].
    apply endsWith_tail in H; [exact H|discriminate|discriminate]. }
  destruct D as [->|D]; [reflexivity|].
  destruct (E _ D) as [->|E']; [reflexivity|].
  now apply endsWith_slash_pop.
Qed.

Lemma tryAttempts_In images l u :
  tryAttempts images l = Some u -> In u (JsMap.values images).
Proof.
  induction l as [|a l IH]; [discriminate|].
  rewrite tryAttempts_cons.
  destruct (JsMap.get a images) eqn:G; [|exact IH].
  intros H. injection H as ->. eapply get_In_values; eauto.
Qed.

(** C10.  On a non-empty index, a reference whose file name part is empty
    (the reference is empty or ends with a slash) is never notFound: it
    resolves to the handle of a registered asset, and when the exact
    lookups all miss, to the handle of the first entry of the index, whose
    key contains the empty string. *)
Theorem empty_fileName_always_resolves :
  forall (images : ImageIndex) (src : string),
    images <> JsMap.empty ->
    src = "" \/ Js.endsWith src "/" = true ->
    (exists u, findImageUrl images src = Some u /\
               In u (JsMap.values images)) /\
    (tryAttempts images (attempts src) = None ->
     findImageUrl images src = option_map snd (List.hd_error images)).
Proof.
  intros images src Hne Hsrc. unfold findImageUrl. cbv zeta.
  rewrite (fileName_empty src Hsrc).
  destruct images as [|[k0 u0] rest]; [now elim Hne|].
  split.
  - destruct (tryAttempts _ (attempts src)) as [u|] eqn:T.
    + exists u. split; [reflexivity|]. eapply tryAttempts_In; eauto.
    + exists u0. simpl. rewrite includes_nil. simpl. auto.
  - intros ->. simpl. now rewrite includes_nil.
Qed.

Lemma empty_fileName_always_resolves_witness :
  (exists u,
      findImageUrl (storeImage "multimedia/photo.png" 4 JsMap.empty)
                   "pictures/" = Some u /\
      In u (JsMap.values (storeImage "multimedia/photo.png" 4 JsMap.empty))) /\
  (tryAttempts (storeImage "multimedia/photo.png" 4 JsMap.empty)
               (attempts "pictures/") = None ->
   findImageUrl (storeImage "multimedia/photo.png" 4 JsMap.empty)
                "pictures/" =
   option_map snd
     (List.hd_error (storeImage "multimedia/photo.png" 4 JsMap.empty))).
Proof.
  apply (empty_fileName_always_resolves
           (storeImage "multimedia/photo.png" 4 JsMap.empty) "pictures/").
  - discriminate.
  - right. reflexivity.
Defined.

(** ** The renderer returns *)

Lemma height_child (c : node) (kids : list node) :
  In c kids -> Dom.height c <= List.list_max (List.map Dom.height kids).
Proof.
  intros H.
  assert (F : Forall (fun k => k <= List.list_max (List.map Dom.height kids))
                     (List.map Dom.height kids))
    by (apply List.list_max_le; lia).
  rewrite Forall_forall in F. apply F. now apply in_map.
Qed.

Lemma height_descendant (n : nat) :
  forall anc e a d,
    Dom.height e <= n -> In (a, d) (Dom.descendants anc e) ->
    Dom.height d < Dom.height e.
Proof.
  induction n as [|n IH]; intros anc e a d Hh Hd.
  - destruct e; simpl in *; try contradiction. lia.
  - destruct e as [t attrs kids| | | |]; simpl in Hd; try contradiction.
    apply in_flat_map in Hd as (c & Hc & Hd).
    pose proof (height_child c kids Hc) as Hck. simpl in Hh |- *.
    destruct (Dom.isElement c); [|contradiction].
    destruct Hd as [Hd|Hd].
    + injection Hd as _ ->. lia.
    + apply IH in Hd; lia.
Qed.

Lemma height_queried sel anc e a d :
  In (a, d) (Dom.querySelectorAll sel anc e) -> Dom.height d < Dom.height e.
Proof.
  unfold Dom.querySelectorAll. intros H. apply filter_In in H as [H _].
  eapply height_descendant; eauto.
Qed.

Section Totality.
Variable rec : list string -> node -> option string.
Variable f : nat.
Hypothesis rec_total :
  forall a c, Dom.isElement c = true -> Dom.height c <= f ->
              exists s, rec a c = Some s.

Lemma renderNodes_total here nodes :
  (forall c, In c nodes -> Dom.height c <= f) ->
  forall html, exists s, renderNodes rec here nodes html = Some s.
Proof.
  induction nodes as [|c nodes IH]; intros H html; simpl; [eauto|].
  assert (Hn : forall c', In c' nodes -> Dom.height c' <= f)
    by (intros; apply H; now right).
  destruct c; auto.
  destruct (rec_total here (Element tagName attributes childNodes))
    as [r ->]; [reflexivity | apply H; now left |].
  simpl. auto.
Qed.

Lemma renderChildren_total anc e :
  Dom.height e <= S f -> exists s, renderChildren rec anc e = Some s.
Proof.
  intros H. unfold renderChildren. apply renderNodes_total.
  intros c Hc. destruct e; simpl in *; try contradiction.
  apply height_child in Hc. lia.
Qed.

Lemma renderEntries_total entries :
  (forall a d, In (a, d) entries -> Dom.height d <= S f) ->
  forall html, exists s, renderEntries rec entries html = Some s.
Proof.
  induction entries as [|[a d] entries IH]; intros H html; simpl; [eauto|].
  destruct (renderChildren_total a d) as [c ->]; [apply (H a); now left|].
  simpl. apply IH. intros; eapply H; right; eauto.
Qed.

Lemma renderCells_total isHeader cells :
  (forall a d, In (a, d) cells -> Dom.height d <= S f) ->
  forall html, exists s, renderCells rec isHeader cells html = Some s.
Proof.
  induction cells as [|[a d] cells IH]; intros H html; simpl; [eauto|].
  destruct (renderChildren_total a d) as [c ->]; [apply (H a); now left|].
  simpl. apply IH. intros; eapply H; right; eauto.
Qed.

Lemma renderRows_total rows :
  (forall a d, In (a, d) rows -> Dom.height d <= S f) ->
  forall index html, exists s, renderRows rec rows index html = Some s.
Proof.
  induction rows as [|[a row] rows IH]; intros H index html; simpl;
    [eauto|].
  match goal with
  | |- context [renderCells rec ?h ?cs ?x] =>
      destruct (renderCells_total h cs) with (html := x) as [s ->]
  end.
  - intros a' d Hd. apply height_queried in Hd.
    specialize (H a row (or_introl eq_refl)). lia.
  - simpl. apply IH. intros; eapply H; right; eauto.
Qed.

Lemma renderTable_total anc e :
  Dom.height e <= S f -> exists s, renderTable rec anc e = Some s.
Proof.
  intros H. unfold renderTable.
  assert (Q : forall sel a d, In (a, d) (Dom.querySelectorAll sel anc e) ->
                              Dom.height d <= S f)
    by (intros sel a d Hd; apply height_queried in Hd; lia).
  destruct (Dom.querySelectorAll ["tr"; "row"] anc e) as [|r rows] eqn:R.
  - destruct (Dom.querySelectorAll ["entry"; "cell"; "td"; "th"] anc e)
      as [|x entries] eqn:E; cbv beta iota zeta; [simpl; eauto|].
    match goal with
    | |- context [renderEntries rec ?es ?x] =>
        destruct (renderEntries_total es) with (html := x) as [s ->]
    end; [|simpl; eauto].
    intros a d Hd. rewrite <- E in Hd. eapply Q; eauto.
  - cbv beta iota zeta.
    match goal with
    | |- context [renderRows rec ?rs ?i ?x] =>
        destruct (renderRows_total rs) with (index := i) (html := x)
          as [s ->]
    end; [|simpl; eauto].
    intros a d Hd. rewrite <- R in Hd. eapply Q; eauto.
Qed.

Lemma renderItems_total here items :
  (forall d, In d items -> Dom.height d <= S f) ->
  forall html, exists s, renderItems rec here items html = Some s.
Proof.
  induction items as [|d items IH]; intros H html; simpl; [eauto|].
  destruct (renderChildren_total here d) as [c ->]; [apply H; now left|].
  simpl. apply IH. intros; apply H; now right.
Qed.

Lemma renderList_total anc e listType :
  Dom.height e <= S f -> exists s, renderList rec anc e listType = Some s.
Proof.
  intros H. unfold renderList.
  destruct (Dom.scopeChildren ["li"; "item"; "listitem"] e)
    as [|x items] eqn:E; cbv beta iota zeta.
  - destruct (renderChildren_total anc e H) as [c ->]. simpl. eauto.
  - match goal with
    | |- context [renderItems rec ?h ?its ?x] =>
        destruct (renderItems_total h its) with (html := x) as [s ->]
    end; [|simpl; eauto].
    intros d Hd. rewrite <- E in Hd. unfold Dom.scopeChildren in Hd.
    apply filter_In in Hd as [Hd _].
    destruct e; simpl in *; try contradiction.
    apply height_child in Hd. lia.
Qed.
End Totality.

Lemma renderElement_unfold images fuel anc tag attrs kids :
  renderElement images (S fuel) anc (Element tag attrs kids) =
  ltac:(let t := eval cbn [renderElement] in
          (renderElement images (S fuel) anc (Element tag attrs kids)) in
        exact t).
Proof. reflexivity. Qed.

(** With fuel for the height of the tree, [renderElement] returns. *)
Lemma renderElement_total images :
  forall fuel anc element,
    Dom.isElement element = true -> Dom.height element <= fuel ->
    exists html, renderElement images fuel anc element = Some html.
Proof.
  induction fuel as [|f IH]; intros anc e He Hh.
  - destruct e; simpl in *; try discriminate; lia.
  - destruct e as [tag attrs kids| | | |]; try discriminate.
    set (e := Element tag attrs kids) in *.
    pose proof (renderChildren_total _ f (IH) anc e Hh) as [c Hc].
    pose proof (renderTable_total _ f (IH) anc e Hh) as [t Ht].
    pose proof (fun lt => renderList_total _ f (IH) anc e lt Hh) as Hl.
    unfold e. rewrite renderElement_unfold. fold e.
    rewrite Hc, Ht. simpl bind.
    repeat match goal with
           | |- exists _, (if ?b then _ else _) = _ => destruct b
           | |- exists _, Some _ = _ => eauto
           | |- exists _, renderList _ _ _ _ = _ => apply Hl
           end.
Qed.

Lemma render_total images root :
  Dom.isElement root = true -> exists html, render images root = Some html.
Proof. intros H. now apply renderElement_total. Qed.

(** ** Escaping *)

(** C1, at the failing input.  [escapeHtml] returns both quote characters
    unchanged, and a link whose [href] holds a double quote is rendered
    with the rest of the value as a further attribute of the anchor. *)
Theorem escapeHtml_keeps_quotes :
  escapeHtml (Js.dq ++ "'") = Js.dq ++ "'" /\
  render JsMap.empty
    (Element "a"
       [("href", "x" ++ Js.dq ++ " onclick=" ++ Js.dq ++ "alert(1)")]
       [Text "t"]) =
  Some ("<a" ++ Html.attr "class" "xml-link" ++ Html.attr "href" "x" ++
        Html.attr "onclick" "alert(1)" ++ Html.attr "target" "_blank" ++
        ">t</a>").
Proof. split; reflexivity. Qed.

(** What [escapeHtml] does encode: its result holds no angle bracket. *)
Lemma escapeHtml_no_angle (text : string) :
  Js.includes (escapeHtml text) "<" = false /\
  Js.includes (escapeHtml text) ">" = false.
Proof.
  induction text as [|c r [IH1 IH2]]; [split; reflexivity|].
  simpl. unfold escapeChar.
  destruct (Ascii.eqb c "&") eqn:E1; [simpl; auto|].
  destruct (Ascii.eqb c "<") eqn:E2; [simpl; auto|].
  destruct (Ascii.eqb c ">") eqn:E3; [simpl; auto|].
  destruct (Js.code c =? 160)%nat; [simpl; auto|].
  unfold Js.chr. simpl append.
  split; cbn [Js.includes];
    rewrite prefix_cons, prefix_nil, andb_true_r, Ascii.eqb_sym;
    [rewrite E2 | rewrite E3]; assumption.
Qed.

(** ** Tag names and case *)

(** C3, at the failing input.  A table whose rows and cells are written
    [TR] and [TD] is rendered without any row, while the same table with
    its tags lower-cased is rendered with its row and cell; and a list
    with a text node before its item [LI] keeps the text, which the
    lower-cased list drops. *)
Theorem selectors_are_case_sensitive :
  let table :=
    Element "table" [] [Element "TR" [] [Element "TD" [] [Text "a"]]] in
  let list := Element "ul" [] [Text "x"; Element "LI" [] [Text "A"]] in
  render JsMap.empty table =
    Some ("<table" ++ Html.attr "class" "xml-table" ++ "></table>") /\
  render JsMap.empty (lowerTags table) =
    Some ("<table" ++ Html.attr "class" "xml-table" ++
          "><tr><td>a</td></tr></table>") /\
  render JsMap.empty list =
    Some ("<ul" ++ Html.attr "class" "xml-list" ++ ">x" ++
          Html.wrap "li" "xml-list-item" "A" ++ "</ul>") /\
  render JsMap.empty (lowerTags list) =
    Some ("<ul" ++ Html.attr "class" "xml-list" ++ ">" ++
          Html.wrap "li" "xml-list-item" "A" ++ "</ul>").
Proof. repeat split; reflexivity. Qed.

(** ** Unknown tags *)

Lemma inArray_false_cons x a l :
  Js.inArray x (a :: l) = false ->
  String.eqb x a = false /\ Js.inArray x l = false.
Proof. unfold Js.inArray. simpl. apply orb_false_iff. Qed.

Ltac split_inArray H :=
  repeat (apply inArray_false_cons in H;
          let E := fresh "E" in destruct H as [E H]).

Lemma hasBlockElements_spec tag attrs kids :
  hasBlockElements (Element tag attrs kids) = hasBlockChild kids.
Proof.
  unfold hasBlockElements, hasBlockChild, Dom.children. simpl.
  induction kids as [|k kids IH]; [reflexivity|].
  destruct k; simpl; try exact IH.
  rewrite IH, toLowerCase_spec. reflexivity.
Qed.

Lemma children_spec tag attrs kids :
  (0 <? List.length (Dom.children (Element tag attrs kids)))%nat =
  hasChildElement kids.
Proof.
  unfold hasChildElement, Dom.children. simpl.
  induction kids as [|k kids IH]; [reflexivity|].
  destruct k; simpl; try exact IH. reflexivity.
Qed.

Lemma wrapTagged_div name body :
  Html.wrapTagged "div" "xml-element-block" name body =
  "<div class=" ++ String "034" "xml-element-block" ++
  String "034" " data-tag=" ++ String "034" name ++
  String "034" ">" ++ body ++ "</div>".
Proof.
  unfold Html.wrapTagged, Html.attr, Js.dq, Js.chr. simpl.
  now rewrite !append_assoc.
Qed.

Lemma wrapTagged_span name body :
  Html.wrapTagged "span" "xml-element" name body =
  "<span class=" ++ String "034" "xml-element" ++
  String "034" " data-tag=" ++ String "034" name ++
  String "034" ">" ++ body ++ "</span>".
Proof.
  unfold Html.wrapTagged, Html.attr, Js.dq, Js.chr. simpl.
  now rewrite !append_assoc.
Qed.

(** C7, as amended.  For an element whose lower-cased tag is not in the
    dispatch table, rendered with fuel for its height: the children are
    rendered to some [content].  If the element has a child element, or a
    direct child whose lower-cased tag is in the block-tag set (only the
    direct children [kids] are looked at), the result is the block wrapper
    [<div class="xml-element-block" data-tag="t">content</div>] where [t]
    is the lower-cased tag name; otherwise, if [content] is not blank, the
    result is the inline wrapper
    [<span class="xml-element" data-tag="t">content</span>]; otherwise it
    is the empty string.  The wrappers are written out character by
    character (the character 034 is the double quote), and lower-casing,
    blankness and the block-tag set are the plain readings, not the
    functions of the code. *)
Theorem unknown_tag_rendering :
  forall (images : ImageIndex) (fuel : nat) (anc : list string)
         (tag : string) (attrs : list (string * string)) (kids : list node),
    let element := Element tag attrs kids in
    List.existsb (String.eqb (specLower tag)) dispatchTable = false ->
    Dom.height element <= S fuel ->
    hasBlockElements element = hasBlockChild kids /\
    exists content,
      renderChildren (renderElement images fuel) anc element = Some content /\
      renderElement images (S fuel) anc element =
        Some (if hasChildElement kids || hasBlockChild kids
              then "<div class=" ++ String "034" "xml-element-block" ++
                   String "034" " data-tag=" ++ String "034" (specLower tag) ++
                   String "034" ">" ++ content ++ "</div>"
              else if isBlank content then ""
                   else "<span class=" ++ String "034" "xml-element" ++
                        String "034" " data-tag=" ++
                        String "034" (specLower tag) ++
                        String "034" ">" ++ content ++ "</span>").
Proof.
  intros images fuel anc tag attrs kids element H Hh.
  split; [apply hasBlockElements_spec|].
  destruct (renderChildren_total _ fuel (renderElement_total images fuel)
              anc element Hh) as [content Hc].
  exists content. split; [exact Hc|].
  unfold element at 1. rewrite renderElement_unfold.
  fold element. rewrite Hc.
  rewrite <- toLowerCase_spec in H |- *.
  change (Js.inArray (Js.toLowerCase tag) dispatchTable = false) in H.
  set (tagName := Js.toLowerCase tag) in *.
  unfold dispatchTable in H. split_inArray H.
  unfold Js.inArray. cbn [existsb].
  repeat match goal with
         | E : String.eqb tagName _ = false |- _ => rewrite !E; clear E
         end.
  cbn [orb bind].
  unfold element. rewrite hasBlockElements_spec, children_spec.
  rewrite (orb_comm (hasBlockChild kids)).
  rewrite truthy_trim_allWs, allWs_isBlank.
  rewrite wrapTagged_div, wrapTagged_span.
  destruct (hasChildElement kids || hasBlockChild kids); [reflexivity|].
  destruct (isBlank content); reflexivity.
Qed.

Lemma unknown_tag_rendering_witness :
  renderElement JsMap.empty 1 [] (Element "Foo" [] [Text "hello"]) =
    Some ("<span class=" ++ String "034" "xml-element" ++
          String "034" " data-tag=" ++ String "034" "foo" ++
          String "034" ">hello</span>") /\
  renderElement JsMap.empty 1 [] (Element "Foo" [] [Text "  "]) = Some "" /\
  renderElement JsMap.empty 2 []
                (Element "Foo" [] [Element "Bar" [] [Text "x"]]) =
    Some ("<div class=" ++ String "034" "xml-element-block" ++
          String "034" " data-tag=" ++ String "034" "foo" ++
          String "034" "><span class=" ++ String "034" "xml-element" ++
          String "034" " data-tag=" ++ String "034" "bar" ++
          String "034" ">x</span></div>").
Proof.
  split; [|split].
  - destruct (unknown_tag_rendering JsMap.empty 0 [] "Foo" [] [Text "hello"]
                eq_refl (le_n 1)) as [_ [content [Hc Hr]]].
    cbv in Hc. injection Hc as <-. exact Hr.
  - destruct (unknown_tag_rendering JsMap.empty 0 [] "Foo" [] [Text "  "]
                eq_refl (le_n 1)) as [_ [content [Hc Hr]]].
    cbv in Hc. injection Hc as <-. exact Hr.
  - destruct (unknown_tag_rendering JsMap.empty 1 [] "Foo" []
                [Element "Bar" [] [Text "x"]]
                eq_refl (le_n 2)) as [_ [content [Hc Hr]]].
    cbv in Hc. injection Hc as <-. exact Hr.
Defined.

(** C7, as stated, fails on a tag with a capital: [<Foo><p>x</p></Foo>] is
    rendered as the block wrapper carrying [foo], not the original tag name
    [Foo]. *)
Lemma unknown_tag_name_is_lowercased :
  let element := Element "Foo" [] [Element "p" [] [Text "x"]] in
  render JsMap.empty element =
    Some ("<div class=" ++ String "034" "xml-element-block" ++
          String "034" " data-tag=" ++ String "034" "foo" ++
          String "034" "><p class=" ++ String "034" "xml-paragraph" ++
          String "034" ">x</p></div>") /\
  render JsMap.empty element <>
    Some ("<div class=" ++ String "034" "xml-element-block" ++
          String "034" " data-tag=" ++ String "034" "Foo" ++
          String "034" "><p class=" ++ String "034" "xml-paragraph" ++
          String "034" ">x</p></div>").
Proof. split; [reflexivity | discriminate]. Qed.

(** ** Images *)

Lemma filter_first {A} (p : A -> bool) (pre : list A) (x : A) (post : list A) :
  p x = true -> (forall y, In y pre -> p y = false) ->
  List.filter p (pre ++ x :: post) = x :: List.filter p post.
Proof.
  intros Hx Hpre. induction pre as [|y pre IH]; simpl.
  - now rewrite Hx.
  - rewrite (Hpre y) by now left. apply IH. intros; apply Hpre; now right.
Qed.

Lemma filter_none {A} (p : A -> bool) (l : list A) :
  (forall y, In y l -> p y = false) -> List.filter p l = [].
Proof.
  induction l as [|y l IH]; intros H; simpl; [reflexivity|].
  rewrite (H y) by now left. apply IH. intros; apply H; now right.
Qed.

Lemma querySelector_first sel e pre el post :
  List.map snd (Dom.descendants [] e) = (pre ++ el :: post)%list ->
  Dom.matches sel el = true ->
  (forall x, In x pre -> Dom.matches sel x = false) ->
  Dom.querySelector sel e = Some el.
Proof.
  intros Hd Hel Hpre. unfold Dom.querySelector, Dom.querySelectorAll.
  apply map_eq_app in Hd as (l1 & l2 & -> & <- & Hd).
  destruct l2 as [|d l2]; [discriminate|]. injection Hd as <- <-.
  rewrite filter_first; [reflexivity | exact Hel |].
  intros y Hy. apply Hpre. now apply in_map.
Qed.

Lemma querySelector_none sel e :
  (forall x, In x (List.map snd (Dom.descendants [] e)) ->
             Dom.matches sel x = false) ->
  Dom.querySelector sel e = None.
Proof.
  intros H. unfold Dom.querySelector, Dom.querySelectorAll.
  rewrite filter_none; [reflexivity|].
  intros y Hy. apply H. now apply in_map.
Qed.

(** C6, as amended.  If some descendant matches one of [caption],
    [figcaption], [title], [alt], the caption is the text of the first such
    descendant in document order, empty or not.  If none matches, the
    caption is the [alt] attribute when that is non-empty, else the
    [title] attribute when that is non-empty, else the empty string.  This
    caption is the one the rendered image block carries. *)
Theorem image_caption_choice :
  forall element : node,
    (forall pre el post,
        List.map snd (Dom.descendants [] element) = (pre ++ el :: post)%list ->
        Dom.matches captionSelector el = true ->
        (forall x, In x pre -> Dom.matches captionSelector x = false) ->
        imageCaption element = Dom.textContent el) /\
    ((forall x, In x (List.map snd (Dom.descendants [] element)) ->
                Dom.matches captionSelector x = false) ->
     imageCaption element =
       match Js.given (Dom.getAttribute element "alt") with
       | Some a => a
       | None =>
           match Js.given (Dom.getAttribute element "title") with
           | Some t => t
           | None => ""
           end
       end) /\
    (forall images src u,
        imageSource element = Some src ->
        findImageUrl images src = Some u ->
        renderImage images element = imageBlock u (imageCaption element)).
Proof.
  intros element. split; [|split].
  - intros pre el post Hd Hel Hpre. unfold imageCaption.
    fold captionSelector.
    now rewrite (querySelector_first _ _ _ _ _ Hd Hel Hpre).
  - intros H. unfold imageCaption. fold captionSelector.
    rewrite (querySelector_none _ _ H).
    destruct (Dom.getAttribute element "alt") as [[|a0 a]|];
      destruct (Dom.getAttribute element "title") as [[|t0 t]|]; reflexivity.
  - intros images src u Hs Hu. unfold renderImage. now rewrite Hs, Hu.
Qed.

Lemma image_caption_choice_witness :
  imageCaption
    (Element "figure" [("src", "a.png"); ("alt", "hello")]
       [Element "label" [] []; Element "caption" [] [Text "Fig. 1"]]) =
    "Fig. 1" /\
  imageCaption (Element "img" [("src", "a.png"); ("title", "T")] []) = "T".
Proof.
  split.
  - apply (proj1 (image_caption_choice
                    (Element "figure" [("src", "a.png"); ("alt", "hello")]
                       [Element "label" [] [];
                        Element "caption" [] [Text "Fig. 1"]]))
                 [Element "label" [] []]
                 (Element "caption" [] [Text "Fig. 1"]) []).
    + reflexivity.
    + reflexivity.
    + intros x [<-|[]]. reflexivity.
  - apply (proj1 (proj2 (image_caption_choice
                    (Element "img" [("src", "a.png"); ("title", "T")] [])))).
    intros x [].
Defined.

(** C6, as stated, fails: a [caption] child without text makes the caption
    empty although the [alt] attribute of the figure is not. *)
Lemma caption_is_not_first_nonempty :
  let figure :=
    Element "figure" [("src", "a.png"); ("alt", "hello")]
      [Element "caption" [] []] in
  imageCaption figure = "" /\ captionSpec figure = "hello".
Proof. split; reflexivity. Qed.

Lemma renderNodes_acc rec here nodes html :
  renderNodes rec here nodes html =
  option_map (append html) (renderNodes rec here nodes "").
Proof.
  revert html. induction nodes as [|c nodes IH]; intros html; simpl.
  - now rewrite append_nil_r.
  - destruct c; auto.
    + destruct (rec here _) as [r|]; [|reflexivity]. simpl.
      rewrite (IH (html ++ r)), (IH r).
      destruct (renderNodes rec here nodes ""); simpl; [|reflexivity].
      now rewrite append_assoc.
    + destruct (Js.truthy (Js.trim data)); [|apply IH]. simpl.
      rewrite (IH (html ++ _)), (IH (escapeHtml data)).
      destruct (renderNodes rec here nodes ""); simpl; [|reflexivity].
      now rewrite append_assoc.
Qed.

Lemma renderNodes_app rec here l1 l2 html :
  renderNodes rec here (l1 ++ l2) html =
  (h <- renderNodes rec here l1 html ;; renderNodes rec here l2 h).
Proof.
  revert html. induction l1 as [|c l1 IH]; intros html; simpl; [reflexivity|].
  destruct c; auto.
  destruct (rec here _); simpl; auto.
Qed.

Lemma imageError_literal message :
  Html.imageError message =
  "<div class=" ++ String "034" "image-error" ++ String "034" ">" ++
  message ++ "</div>".
Proof. reflexivity. Qed.

(** C8.  An image-like element (lower-cased tag one of [img], [image],
    [figure], [graphic], [picture]) always renders to a string.  When no
    reference can be determined it is the marker
    [<div class="image-error">Image source not found</div>]; when the
    reference [src] is determined and the resolver returns notFound it is
    [<div class="image-error">Image not found: e</div>] where [e] is [src]
    escaped for element content.  The markers are written out character
    by character (the character 034 is the double quote), and the tag
    test and the escaping are the plain readings [specLower] and
    [specEscape], not the functions of the code.  Around such an element
    the walk goes on: the siblings before and after it are rendered as
    they are on their own, with the marker between them; and the
    rendering of a whole document always returns. *)
Theorem image_failures_are_local :
  forall (images : ImageIndex) (fuel : nat) (anc : list string)
         (tag : string) (attrs : list (string * string)) (kids : list node),
    let element := Element tag attrs kids in
    List.existsb (String.eqb (specLower tag))
                 ["img"; "image"; "figure"; "graphic"; "picture"] = true ->
    (imageSource element = None ->
     renderElement images (S fuel) anc element =
       Some ("<div class=" ++ String "034" "image-error" ++
             String "034" ">Image source not found</div>")) /\
    (forall src,
        imageSource element = Some src ->
        findImageUrl images src = None ->
        renderElement images (S fuel) anc element =
          Some ("<div class=" ++ String "034" "image-error" ++
                String "034" ">Image not found: " ++ specEscape src ++
                "</div>")) /\
    (exists marker,
        renderElement images (S fuel) anc element = Some marker /\
        forall before after,
          renderNodes (renderElement images (S fuel)) anc
                      (before ++ element :: after) "" =
          (b <- renderNodes (renderElement images (S fuel)) anc before "" ;;
           a <- renderNodes (renderElement images (S fuel)) anc after "" ;;
           Some (b ++ marker ++ a))) /\
    (forall root, Dom.isElement root = true ->
                  exists html, render images root = Some html).
Proof.
  intros images fuel anc tag attrs kids element H.
  assert (R : renderElement images (S fuel) anc element =
              Some (renderImage images element)).
  { unfold element. rewrite renderElement_unfold.
    rewrite <- toLowerCase_spec in H.
    change (Js.inArray (Js.toLowerCase tag)
              ["img"; "image"; "figure"; "graphic"; "picture"] = true) in H.
    now rewrite H. }
  repeat split.
  - intros Hs. rewrite R. unfold renderImage. rewrite Hs.
    now rewrite imageError_literal.
  - intros src Hs Hf. rewrite R. unfold renderImage. rewrite Hs, Hf.
    rewrite imageError_literal, escapeHtml_spec. reflexivity.
  - exists (renderImage images element). split; [exact R|].
    intros before after. rewrite renderNodes_app.
    destruct (renderNodes _ anc before "") as [b|]; [|reflexivity].
    cbn [bind renderNodes]. unfold element at 1. fold element. rewrite R.
    cbn [bind]. rewrite renderNodes_acc.
    destruct (renderNodes _ anc after "") as [a|]; [|reflexivity].
    simpl. now rewrite append_assoc.
  - apply render_total.
Qed.

Lemma image_failures_are_local_witness :
  renderElement JsMap.empty 1 []
    (Element "IMAGE" [("src", "a<b&c.png")] []) =
    Some ("<div class=" ++ String "034" "image-error" ++
          String "034" ">Image not found: a&lt;b&amp;c.png</div>") /\
  renderElement JsMap.empty 1 [] (Element "figure" [] []) =
    Some ("<div class=" ++ String "034" "image-error" ++
          String "034" ">Image source not found</div>").
Proof.
  split.
  - apply (proj1 (proj2 (image_failures_are_local JsMap.empty 0 [] "IMAGE"
                           [("src", "a<b&c.png")] [] eq_refl)) "a<b&c.png");
      reflexivity.
  - apply (proj1 (image_failures_are_local JsMap.empty 0 [] "figure"
                    [] [] eq_refl)).
    reflexivity.
Defined.

(** ** Sessions *)

Lemma In_revokeAll urls live u :
  In u (revokeAll urls live) -> In u live /\ ~ In u urls.
Proof.
  unfold revokeAll. revert live.
  induction urls as [|x urls IH]; intros live H; simpl in *; [tauto|].
  apply IH in H as [H N]. unfold revokeObjectURL in H.
  apply filter_In in H as [H E]. apply negb_true_iff, Nat.eqb_neq in E.
  intuition.
Qed.

Lemma In_set {V} (k k' : string) (v v' : V) (m : JsMap.t V) :
  In (k, v) (JsMap.set k' v' m) -> (k = k' /\ v = v') \/ In (k, v) m.
Proof.
  induction m as [|[k0 v0] m IH]; simpl.
  - intros [H|[]]. injection H as <- <-. now left.
  - destruct (String.eqb k' k0) eqn:E; simpl.
    + apply String.eqb_eq in E. subst k0.
      intros [H|H]; [injection H as <- <-; now left | right; now right].
    + intros [H|H]; [right; now left|].
      apply IH in H as [H|H]; [now left | right; now right].
Qed.

Lemma In_storeImage path h images k u :
  In (k, u) (storeImage path h images) ->
  (In k (derivedKeys path) /\ u = h) \/ In (k, u) images.
Proof.
  unfold storeImage, derivedKeys. cbv zeta. intros H.
  repeat (apply In_set in H as [[-> ->]|H]; [left; simpl; auto 7|]).
  now right.
Qed.

Lemma In_extractImages files v k u :
  In (k, u) (images (extractImages files v)) ->
  In (k, u) (images v) \/
  exists path, In path files /\ In k (derivedKeys path) /\ nextUrl v <= u.
Proof.
  revert v. induction files as [|p files IH]; intros v H; [now left|].
  simpl in H. apply IH in H as [H|(path & Hp & Hk & Hu)].
  - simpl in H. apply In_storeImage in H as [[Hk ->]|H]; [|now left].
    right. exists p. simpl. auto.
  - right. exists path. simpl in *. split; [now right|]. split; [exact Hk|lia].
Qed.

Section SessionFacts.
Variable parseXml : string -> node * bool.
Variable localeLe : string -> string -> bool.

Lemma images_renderCurrentXML v v' :
  renderCurrentXML v = Some v' -> images v' = images v.
Proof.
  unfold renderCurrentXML.
  destruct (List.nth_error (xmlFiles v) (currentXmlIndex v)) as [x|].
  - destruct (render (images v) (parsed x)); simpl; [|discriminate].
    now intros [= <-].
  - now intros [= <-].
Qed.

Lemma In_extractContents v files k u :
  In (k, u) (images (fst (extractContents parseXml localeLe v files))) ->
  In (k, u) (images v) \/
  exists path, In path (snd (classify files)) /\
               In k (derivedKeys path) /\ nextUrl v <= u.
Proof.
  unfold extractContents.
  destruct (classify files) as [xmls imageFiles]. simpl snd.
  destruct xmls as [|x xmls]; [now left|].
  match goal with
  | |- context [renderCurrentXML ?w] =>
      destruct (renderCurrentXML w) as [v'|] eqn:R;
      [apply images_renderCurrentXML in R; simpl fst; rewrite R|]
  end; simpl; intros H; apply In_extractImages in H; exact H.
Qed.

Lemma In_processFile v file k u :
  In (k, u) (images (processFile parseXml localeLe v file)) ->
  In (k, u) (images v) \/
  exists files path,
    loadAsync file = inr files /\ In path (snd (classify files)) /\
    In k (derivedKeys path) /\ nextUrl v <= u.
Proof.
  unfold processFile.
  destruct (negb (Js.endsWith (fileName file) ".zip")); [now left|].
  destruct (loadAsync file) as [message|files]; [now left|].
  pose proof (In_extractContents (setScreen v LoadingScreen) files k u) as E.
  destruct (extractContents parseXml localeLe (setScreen v LoadingScreen)
              files) as [w [message|]]; simpl in *; intros H;
    (destruct (E H) as [?|(path & ? & ? & ?)];
     [now left | right; exists files, path; auto]).
Qed.

(** What [reset] does give: it revokes every handle the image index
    still holds and empties the index and the document set, and a load
    that starts from a viewer that was reset leaves an index whose
    entries all come from the new archive: each key is derived from the
    path of one of its images and each handle was created during this
    load. *)
Lemma reset_then_load_is_fresh :
  forall v : Viewer,
    (forall u, In u (JsMap.values (images v)) ->
               ~ In u (objectUrls (reset v))) /\
    images (reset v) = JsMap.empty /\
    xmlFiles (reset v) = [] /\
    (forall file k u,
        In (k, u) (JsMap.entries
                     (images (processFile parseXml localeLe (reset v) file))) ->
        exists files path,
          loadAsync file = inr files /\ In path (snd (classify files)) /\
          In k (derivedKeys path) /\ nextUrl v <= u).
Proof.
  intros v. repeat split.
  - intros u Hu H. simpl in H. apply In_revokeAll in H. tauto.
  - intros file k u H. apply In_processFile in H as [[]|H]. exact H.
Qed.
End SessionFacts.

Example reset_then_load_is_fresh_ex :
  ~ In 0 (objectUrls (reset (processFile parseStub String.leb newViewer
                               archiveA))) /\
  exists files path,
    loadAsync archiveB = inr files /\ In path (snd (classify files)) /\
    In "b.png" (derivedKeys path) /\ 1 <= 1.
Proof.
  pose proof (reset_then_load_is_fresh parseStub String.leb
                (processFile parseStub String.leb newViewer archiveA)) as T.
  split.
  - apply (proj1 T). simpl. auto.
  - apply (proj2 (proj2 (proj2 T)) archiveB "b.png" 1). simpl. auto.
Qed.

(** C5 fails on the code, in two ways that come from one omission:
    nothing but [reset] releases handles or empties the index, and
    [reset] revokes only the handles that are still values of the index.

    First, [archiveX] holds [x.png] and [b/x.png].  Loading it creates
    the handles 0 and 1; every key stored for handle 0 is overwritten by
    the second image, so the index holds handle 1 only.  [reset] then
    revokes handle 1 and leaves handle 0 live, and handle 0 is still
    live after the next archive has been loaded.

    Second, loading [archiveB] into the session of [archiveA] without a
    [reset] in between keeps the handle of the first archive live and
    its keys in the index, where a reference of the new document
    resolves to the old image; the key is not derived from the new
    archive's image.  The document set alone is replaced. *)
Theorem previous_session_is_not_released :
  let load := processFile parseStub String.leb in
  let v1 := load newViewer archiveX in
  let v2 := reset v1 in
  let v3 := load v2 archiveB in
  let w1 := load newViewer archiveA in
  let w2 := load w1 archiveB in
  (objectUrls v1 = [0; 1] /\
   JsMap.entries (images v1) = [("x.png", 1); ("x", 1); ("b/x.png", 1)] /\
   objectUrls v2 = [0] /\
   screen v3 = PreviewScreen /\
   objectUrls v3 = [0; 2] /\
   JsMap.values (images v3) = [2; 2; 2]) /\
  (screen w1 = PreviewScreen /\
   objectUrls w1 = [0] /\
   screen w2 = PreviewScreen /\
   objectUrls w2 = [0; 1] /\
   JsMap.entries (images w2) =
     [("a.png", 0); ("img/a.png", 0); ("a", 0);
      ("b.png", 1); ("img/b.png", 1); ("b", 1)] /\
   findImageUrl (images w2) "a.png" = Some 0 /\
   ~ In "a.png" (derivedKeys "img/b.png") /\
   List.map name (xmlFiles w2) = ["b.xml"]).
Proof.
  cbv zeta. repeat split; try reflexivity.
  simpl. intuition discriminate.
Qed.

(** ** The raw formatter *)

(** *** Whitespace and trimming *)

Lemma ws_not_gt c : Js.is_ws c = true -> Ascii.eqb c ">" = false.
Proof.
  intros H. destruct (Ascii.eqb_spec c ">") as [->|]; [discriminate|reflexivity].
Qed.

Lemma ws_not_lt c : Js.is_ws c = true -> Ascii.eqb c "<" = false.
Proof.
  intros H. destruct (Ascii.eqb_spec c "<") as [->|]; [discriminate|reflexivity].
Qed.

Lemma nl_is_ws c : Ascii.eqb c "010" = true -> Js.is_ws c = true.
Proof. intros H. apply Ascii.eqb_eq in H. now subst. Qed.

Lemma trimStart_allWs w : allWs w = true -> Js.trimStart w = "".
Proof.
  induction w as [|c w IH]; simpl; [reflexivity|].
  intros H. apply andb_true_iff in H as [-> H]. auto.
Qed.

Lemma trimStart_ws_app w s :
  allWs w = true -> Js.trimStart (w ++ s) = Js.trimStart s.
Proof.
  induction w as [|c w IH]; simpl; [reflexivity|].
  intros H. apply andb_true_iff in H as [-> H]. auto.
Qed.

Lemma trimEnd_allWs w : allWs w = true -> Js.trimEnd w = "".
Proof.
  induction w as [|c w IH]; simpl; [reflexivity|].
  intros H. apply andb_true_iff in H as [-> H]. now rewrite IH.
Qed.

Lemma trimEnd_app_ws s w :
  allWs w = true -> Js.trimEnd (s ++ w) = Js.trimEnd s.
Proof.
  intros H. induction s as [|c s IH]; simpl.
  - now apply trimEnd_allWs.
  - now rewrite IH.
Qed.

Lemma trim_app_ws s w : allWs w = true -> Js.trim (s ++ w) = Js.trim s.
Proof.
  intros H. unfold Js.trim. induction s as [|c s IH]; simpl.
  - now rewrite trimStart_allWs.
  - destruct (Js.is_ws c); [exact IH|].
    change (String c (s ++ w)) with (String c s ++ w).
    now apply trimEnd_app_ws.
Qed.

Lemma trim_ws_app w s : allWs w = true -> Js.trim (w ++ s) = Js.trim s.
Proof. intros H. unfold Js.trim. now rewrite trimStart_ws_app. Qed.

Lemma trimStart_split s :
  exists w, allWs w = true /\ s = w ++ Js.trimStart s.
Proof.
  induction s as [|c s (w & Hw & E)]; simpl.
  - now exists "".
  - destruct (Js.is_ws c) eqn:C.
    + exists (String c w). simpl. rewrite C, Hw. split; [reflexivity|].
      now f_equal.
    + now exists "".
Qed.

Lemma trimEnd_split s :
  exists w, allWs w = true /\ s = Js.trimEnd s ++ w.
Proof.
  induction s as [|c s (w & Hw & E)]; simpl.
  - now exists "".
  - destruct (Js.is_ws c) eqn:C; simpl.
    + destruct (Js.trimEnd s) eqn:T; simpl.
      * exists (String c w). simpl in *. rewrite C, Hw. split; [reflexivity|].
        now f_equal.
      * exists w. split; [exact Hw|]. now f_equal.
    + exists w. split; [exact Hw|]. now f_equal.
Qed.

Lemma trim_split s :
  exists w1 w2,
    allWs w1 = true /\ allWs w2 = true /\ s = w1 ++ Js.trim s ++ w2.
Proof.
  destruct (trimStart_split s) as (w1 & H1 & E1).
  destruct (trimEnd_split (Js.trimStart s)) as (w2 & H2 & E2).
  exists w1, w2. repeat split; try assumption.
  unfold Js.trim. now rewrite <- E2.
Qed.

(** *** Lines *)

Lemma split_cons sep c r :
  Js.split sep (String c r) =
  if Ascii.eqb c sep then "" :: Js.split sep r
  else String c (List.hd "" (Js.split sep r)) :: List.tl (Js.split sep r).
Proof.
  simpl. destruct (Ascii.eqb c sep); [reflexivity|].
  destruct (Js.split sep r) eqn:S; [now apply split_nonempty in S|reflexivity].
Qed.

Lemma split_app_nl x y :
  Js.split "010" (x ++ String "010" y) =
  (Js.split "010" x ++ Js.split "010" y)%list.
Proof.
  induction x as [|c x IH]; [reflexivity|].
  change (String c x ++ String "010" y) with (String c (x ++ String "010" y)).
  rewrite !split_cons, IH.
  destruct (Ascii.eqb c "010"); [reflexivity|].
  destruct (Js.split "010" x) eqn:S; [now apply split_nonempty in S|].
  reflexivity.
Qed.

Lemma split_noNl s : hasNl s = false -> Js.split "010" s = [s].
Proof.
  induction s as [|c s IH]; [reflexivity|].
  simpl. intros H. apply orb_false_iff in H as [-> H]. now rewrite IH.
Qed.

Lemma split_lines_noNl s l : In l (Js.split "010" s) -> hasNl l = false.
Proof.
  revert l. induction s as [|c s IH]; intros l.
  - simpl. intros [<-|[]]. reflexivity.
  - rewrite split_cons. destruct (Ascii.eqb c "010") eqn:C.
    + intros [<-|H]; [reflexivity | now apply IH].
    + destruct (Js.split "010" s) as [|h t] eqn:S;
        [now apply split_nonempty in S|].
      simpl. intros [<-|H].
      * simpl. rewrite C. apply IH. now left.
      * apply IH. now right.
Qed.

Lemma split_app_noNl t w :
  hasNl w = false ->
  Js.split "010" (t ++ w) = snocLast (Js.split "010" t) w.
Proof.
  intros H. induction t as [|c t IH].
  - simpl. now apply split_noNl.
  - change (String c t ++ w) with (String c (t ++ w)).
    rewrite !split_cons, IH.
    destruct (Js.split "010" t) as [|h tl] eqn:S;
      [now apply split_nonempty in S|].
    destruct (Ascii.eqb c "010"); [reflexivity|].
    destruct tl; reflexivity.
Qed.

Lemma cleanLines_app l1 l2 :
  cleanLines (l1 ++ l2) = (cleanLines l1 ++ cleanLines l2)%list.
Proof. unfold cleanLines. now rewrite map_app, filter_app. Qed.

Lemma cleanLines_snocLast l w :
  l <> [] -> allWs w = true -> cleanLines (snocLast l w) = cleanLines l.
Proof.
  intros Hl Hw. induction l as [|x l IH]; [now elim Hl|].
  destruct l as [|y l].
  - unfold cleanLines. simpl. now rewrite trim_app_ws.
  - change (snocLast (x :: y :: l) w) with (x :: snocLast (y :: l) w).
    change (x :: ?r) with ([x] ++ r)%list.
    rewrite !cleanLines_app. f_equal. apply IH. discriminate.
Qed.

(** The non-skipped lines of a text, before the regexp is applied. *)
Lemma lines_nl x y :
  cleanLines (Js.split "010" (x ++ String "010" y)) =
  (cleanLines (Js.split "010" x) ++ cleanLines (Js.split "010" y))%list.
Proof. now rewrite split_app_nl, cleanLines_app. Qed.

Lemma lines_ws_l w t :
  allWs w = true ->
  cleanLines (Js.split "010" (w ++ t)) = cleanLines (Js.split "010" t).
Proof.
  induction w as [|c w IH]; [reflexivity|].
  simpl allWs. intros H. apply andb_true_iff in H as [C H].
  change (String c w ++ t) with (String c (w ++ t)).
  rewrite split_cons. destruct (Ascii.eqb c "010").
  - unfold cleanLines at 1. simpl. now apply IH.
  - rewrite <- (IH H).
    destruct (Js.split "010" (w ++ t)) as [|h tl] eqn:S;
      [now apply split_nonempty in S|].
    unfold cleanLines. simpl.
    change (String c h) with (Js.chr c ++ h).
    rewrite trim_ws_app; [reflexivity|]. simpl. now rewrite C.
Qed.

Lemma lines_allWs w :
  allWs w = true -> cleanLines (Js.split "010" w) = [].
Proof.
  intros H. rewrite <- (append_nil_r w). now rewrite lines_ws_l.
Qed.

Lemma lines_ws_r w :
  allWs w = true -> forall t,
  cleanLines (Js.split "010" (t ++ w)) = cleanLines (Js.split "010" t).
Proof.
  induction w as [|c w IH]; intros H t.
  - now rewrite append_nil_r.
  - simpl in H. apply andb_true_iff in H as [C H].
    destruct (Ascii.eqb c "010") eqn:N.
    + apply Ascii.eqb_eq in N. subst c.
      rewrite lines_nl, (lines_allWs w H). apply app_nil_r.
    + change (t ++ String c w) with (t ++ (Js.chr c ++ w)).
      rewrite <- append_assoc, (IH H).
      rewrite split_app_noNl by (simpl; now rewrite N).
      apply cleanLines_snocLast; [apply split_nonempty|].
      simpl. now rewrite C.
Qed.

(** *** The regexp *)

Lemma replaceGtLt_other c r :
  Ascii.eqb c ">" = false ->
  replaceGtLt (String c r) = String c (replaceGtLt r).
Proof.
  intros E. simp replaceGtLt.
  destruct (Logic.inspect _) as [[r'|] e];
    [pose proof e as e'; rewrite E in e'; discriminate|].
  reflexivity.
Qed.

Lemma replaceGtLt_match r r' :
  matchWsLt r = Some r' ->
  replaceGtLt (String ">" r) = String ">" (String "010" (String "<" (replaceGtLt r'))).
Proof.
  intros E. simp replaceGtLt.
  destruct (Logic.inspect _) as [[r''|] e]; pose proof e as e';
    simpl in e'; rewrite E in e'; [|discriminate].
  injection e' as <-. reflexivity.
Qed.

Lemma replaceGtLt_nomatch r :
  matchWsLt r = None ->
  replaceGtLt (String ">" r) = String ">" (replaceGtLt r).
Proof.
  intros E. simp replaceGtLt.
  destruct (Logic.inspect _) as [[r''|] e]; pose proof e as e';
    simpl in e'; rewrite E in e'; [discriminate|].
  reflexivity.
Qed.

(** The three cases of one step of the replacement. *)
Lemma replaceGtLt_cases c r :
  (Ascii.eqb c ">" = false /\
   replaceGtLt (String c r) = String c (replaceGtLt r)) \/
  (c = ">"%char /\ matchWsLt r = None /\
   replaceGtLt (String c r) = String c (replaceGtLt r)) \/
  (c = ">"%char /\ exists r', matchWsLt r = Some r' /\
   replaceGtLt (String c r) =
   String ">" (String "010" (String "<" (replaceGtLt r')))).
Proof.
  destruct (Ascii.eqb c ">") eqn:E.
  - apply Ascii.eqb_eq in E. subst c. right.
    destruct (matchWsLt r) as [r'|] eqn:M.
    + right. split; [reflexivity|]. exists r'. split; [reflexivity|].
      now apply replaceGtLt_match.
    + left. repeat split. now apply replaceGtLt_nomatch.
  - left. split; [reflexivity|]. now apply replaceGtLt_other.
Qed.

Lemma matchWsLt_shorter r r' :
  matchWsLt r = Some r' -> String.length r' < String.length r.
Proof.
  revert r'. induction r as [|c r IH]; simpl; intros r' H; [discriminate|].
  destruct (Ascii.eqb c "<").
  - injection H as <-. lia.
  - destruct (Js.is_ws c); [|discriminate].
    specialize (IH _ H). lia.
Qed.

Lemma matchWsLt_app r r' t :
  matchWsLt r = Some r' -> matchWsLt (r ++ t) = Some (r' ++ t).
Proof.
  induction r as [|c r IH]; simpl; [discriminate|].
  destruct (Ascii.eqb c "<"); [now intros [= <-]|].
  destruct (Js.is_ws c); [exact IH | discriminate].
Qed.

Lemma matchWsLt_none_app r t :
  matchWsLt r = None ->
  matchWsLt (r ++ t) = if allWs r then matchWsLt t else None.
Proof.
  induction r as [|c r IH]; simpl; [reflexivity|].
  destruct (Ascii.eqb c "<"); [discriminate|].
  destruct (Js.is_ws c); [exact IH | reflexivity].
Qed.

Lemma matchWsLt_allWs w : allWs w = true -> matchWsLt w = None.
Proof.
  induction w as [|c w IH]; simpl; [reflexivity|].
  intros H. apply andb_true_iff in H as [C H].
  now rewrite (ws_not_lt c C), C, IH.
Qed.

Lemma matchWsLt_some r z :
  matchWsLt r = Some z -> exists w, allWs w = true /\ r = w ++ String "<" z.
Proof.
  induction r as [|c r IH]; simpl; [discriminate|].
  destruct (Ascii.eqb c "<") eqn:E.
  - intros [= <-]. apply Ascii.eqb_eq in E. subst c. now exists "".
  - destruct (Js.is_ws c) eqn:C; [|discriminate].
    intros H. destruct (IH H) as (w & Hw & ->).
    exists (String c w). simpl. now rewrite C, Hw.
Qed.

Lemma replaceGtLt_ws_app w t :
  allWs w = true -> replaceGtLt (w ++ t) = w ++ replaceGtLt t.
Proof.
  induction w as [|c w IH]; [reflexivity|].
  simpl. intros H. apply andb_true_iff in H as [C H].
  rewrite replaceGtLt_other by now apply ws_not_gt. now rewrite IH.
Qed.

Lemma replaceGtLt_allWs w : allWs w = true -> replaceGtLt w = w.
Proof.
  intros H. rewrite <- (append_nil_r w) at 1.
  rewrite replaceGtLt_ws_app by assumption.
  simp replaceGtLt. apply append_nil_r.
Qed.

(** Strong induction on the length of a string. *)
Lemma string_length_ind (P : string -> Prop) :
  (forall s, (forall s', String.length s' < String.length s -> P s') -> P s) ->
  forall s, P s.
Proof.
  intros H s.
  assert (G : forall n s, String.length s < n -> P s).
  { induction n as [|n IH]; intros s' Hs; [lia|].
    apply H. intros s'' Hs'. apply IH. lia. }
  apply (G (S (String.length s))). lia.
Qed.

Lemma replaceGtLt_app_ws a w :
  allWs w = true -> replaceGtLt (a ++ w) = replaceGtLt a ++ w.
Proof.
  intros H. induction a as [a IH] using string_length_ind.
  destruct a as [|c r].
  - simpl. rewrite replaceGtLt_allWs by assumption. now simp replaceGtLt.
  - change (String c r ++ w) with (String c (r ++ w)).
    destruct (replaceGtLt_cases c r) as [(E & ->)|[(-> & M & ->)|(-> & r' & M & ->)]].
    + rewrite replaceGtLt_other by assumption. simpl. f_equal.
      apply IH. simpl. lia.
    + rewrite replaceGtLt_nomatch.
      * simpl. f_equal. apply IH. simpl. lia.
      * rewrite matchWsLt_none_app by assumption.
        destruct (allWs r); [now apply matchWsLt_allWs | reflexivity].
    + rewrite (replaceGtLt_match _ _ (matchWsLt_app _ _ w M)).
      simpl. do 3 f_equal. apply IH.
      apply matchWsLt_shorter in M. simpl. lia.
Qed.

(** The replacement on two texts joined by a line feed: either it goes
    through, or the first ends in a pending [>] and the second begins with
    the [<] that completes the match. *)
Lemma replaceGtLt_app_nl a b :
  replaceGtLt (a ++ String "010" b) =
    replaceGtLt a ++ String "010" (replaceGtLt b) \/
  exists p w w' z,
    allWs w = true /\ allWs w' = true /\
    replaceGtLt a = p ++ String ">" w /\
    replaceGtLt b = w' ++ String "<" z /\
    replaceGtLt (a ++ String "010" b) =
      p ++ String ">" (String "010" (String "<" z)).
Proof.
  induction a as [a IH] using string_length_ind.
  destruct a as [|c r].
  - left. simpl. rewrite replaceGtLt_other by reflexivity.
    now simp replaceGtLt.
  - change (String c r ++ String "010" b)
      with (String c (r ++ String "010" b)).
    destruct (replaceGtLt_cases c r)
      as [(E & ->)|[(-> & M & ->)|(-> & r' & M & ->)]].
    + rewrite replaceGtLt_other by assumption.
      destruct (IH r) as [->|(p & w & w' & z & Hw & Hw' & -> & Eb & ->)];
        [simpl; lia | now left |].
      right. exists (String c p), w, w', z. auto.
    + destruct (matchWsLt (r ++ String "010" b)) as [z0|] eqn:M2.
      * pose proof M2 as M3.
        rewrite matchWsLt_none_app in M2 by assumption.
        destruct (allWs r) eqn:Hr; [|discriminate].
        simpl in M2.
        destruct (matchWsLt_some _ _ M2) as (w' & Hw' & ->).
        right. exists "", r, w', (replaceGtLt z0).
        repeat split; try assumption.
        -- simpl. now rewrite replaceGtLt_allWs.
        -- rewrite replaceGtLt_ws_app by assumption.
           now rewrite replaceGtLt_other.
        -- now rewrite (replaceGtLt_match _ _ M3).
      * rewrite replaceGtLt_nomatch by assumption.
        destruct (IH r) as [->|(p & w & w' & z & Hw & Hw' & -> & Eb & ->)];
          [simpl; lia | now left |].
        right. exists (String ">" p), w, w', z. auto.
    + rewrite (replaceGtLt_match _ _ (matchWsLt_app _ _ _ M)).
      destruct (IH r') as [->|(p & w & w' & z & Hw & Hw' & -> & Eb & ->)];
        [apply matchWsLt_shorter in M; simpl; lia | now left |].
      right.
      exists (String ">" (String "010" (String "<" p))), w, w', z. auto.
Qed.

Lemma replaceGtLt_head c r : exists z, replaceGtLt (String c r) = String c z.
Proof.
  destruct (replaceGtLt_cases c r)
    as [(E & ->)|[(-> & M & ->)|(-> & r' & M & ->)]]; eauto.
Qed.

(** After a [>] that does not match, the first line of what follows still
    does not match. *)
Lemma matchWsLt_first_line r :
  matchWsLt r = None ->
  matchWsLt (List.hd "" (Js.split "010" (replaceGtLt r))) = None.
Proof.
  induction r as [|c r IH]; [reflexivity|].
  simpl matchWsLt. destruct (Ascii.eqb c "<") eqn:E1; [discriminate|].
  destruct (Js.is_ws c) eqn:C; intros H.
  - rewrite replaceGtLt_other by now apply ws_not_gt.
    rewrite split_cons. destruct (Ascii.eqb c "010"); [reflexivity|].
    simpl. rewrite E1, C. now apply IH.
  - destruct (replaceGtLt_head c r) as [z ->].
    rewrite split_cons. destruct (Ascii.eqb c "010") eqn:N.
    + apply nl_is_ws in N. congruence.
    + simpl. now rewrite E1, C.
Qed.

(** Every line of the text the regexp leaves is left as it is by the
    regexp. *)
Lemma replaceGtLt_lines_fixed x :
  forall l, In l (Js.split "010" (replaceGtLt x)) -> replaceGtLt l = l.
Proof.
  induction x as [x IH] using string_length_ind.
  destruct x as [|c r]; intros l.
  - simp replaceGtLt. simpl. intros [<-|[]]. now simp replaceGtLt.
  - assert (IHr : forall l, In l (Js.split "010" (replaceGtLt r)) ->
                            replaceGtLt l = l) by (apply IH; simpl; lia).
    assert (Hhd : In (List.hd "" (Js.split "010" (replaceGtLt r)))
                     (Js.split "010" (replaceGtLt r))).
    { destruct (Js.split "010" (replaceGtLt r)) eqn:S;
        [now apply split_nonempty in S | now left]. }
    assert (Htl : forall l, In l (List.tl (Js.split "010" (replaceGtLt r))) ->
                            In l (Js.split "010" (replaceGtLt r))).
    { destruct (Js.split "010" (replaceGtLt r)); [intros ? []|].
      intros; now right. }
    destruct (replaceGtLt_cases c r)
      as [(E & ->)|[(-> & M & ->)|(-> & r' & M & ->)]].
    + rewrite split_cons. destruct (Ascii.eqb c "010").
      * intros [<-|H]; [now simp replaceGtLt | now apply IHr].
      * intros [<-|H]; [|now apply IHr, Htl].
        rewrite replaceGtLt_other by assumption. f_equal. now apply IHr.
    + rewrite split_cons. simpl Ascii.eqb. cbv iota.
      intros [<-|H]; [|now apply IHr, Htl].
      rewrite replaceGtLt_nomatch by now apply matchWsLt_first_line.
      f_equal. now apply IHr.
    + assert (IHr' : forall l, In l (Js.split "010" (replaceGtLt r')) ->
                               replaceGtLt l = l).
      { apply IH. apply matchWsLt_shorter in M. simpl. lia. }
      destruct (Js.split "010" (replaceGtLt r')) as [|h t] eqn:S;
        [now apply split_nonempty in S|].
      simpl Js.split. rewrite S.
      intros [<-|[<-|H]].
      * rewrite replaceGtLt_nomatch by reflexivity. now simp replaceGtLt.
      * rewrite replaceGtLt_other by reflexivity. f_equal. apply IHr'.
        now left.
      * apply IHr'. now right.
Qed.

(** *** The content lines of a text *)

Lemma contentLines_nl a b :
  contentLines (a ++ String "010" b) =
  (contentLines a ++ contentLines b)%list.
Proof.
  unfold contentLines.
  destruct (replaceGtLt_app_nl a b)
    as [->|(p & w & w' & z & Hw & Hw' & -> & -> & ->)].
  - apply lines_nl.
  - change (p ++ String ">" (String "010" (String "<" z)))
      with (p ++ String ">" ("" ++ String "010" (String "<" z))).
    change (String ">" ("" ++ String "010" (String "<" z)))
      with ((String ">" "") ++ String "010" (String "<" z)).
    rewrite <- append_assoc, lines_nl.
    change (p ++ String ">" w) with (p ++ (String ">" "" ++ w)).
    rewrite <- (append_assoc p).
    rewrite (lines_ws_r w Hw), (lines_ws_l w' _ Hw'). reflexivity.
Qed.

Lemma contentLines_ws_l w a :
  allWs w = true -> contentLines (w ++ a) = contentLines a.
Proof.
  intros H. unfold contentLines.
  now rewrite replaceGtLt_ws_app, lines_ws_l.
Qed.

Lemma contentLines_ws_r a w :
  allWs w = true -> contentLines (a ++ w) = contentLines a.
Proof.
  intros H. unfold contentLines.
  now rewrite replaceGtLt_app_ws, lines_ws_r.
Qed.

Lemma contentLines_trim a : contentLines (Js.trim a) = contentLines a.
Proof.
  destruct (trim_split a) as (w1 & w2 & H1 & H2 & E).
  rewrite E at 2.
  now rewrite contentLines_ws_l, contentLines_ws_r.
Qed.

(** A content line is the only content line of itself. *)
Lemma contentLines_line x L :
  In L (contentLines x) -> contentLines L = [L].
Proof.
  unfold contentLines at 1, cleanLines. intros H.
  apply filter_In in H as [H T]. apply in_map_iff in H as (l & <- & H).
  rewrite contentLines_trim. unfold contentLines.
  rewrite (replaceGtLt_lines_fixed x l H).
  rewrite split_noNl by (eapply split_lines_noNl; eauto).
  unfold cleanLines. simpl. now rewrite T.
Qed.

Lemma allWs_repeat n : allWs (Js.repeat "  " n) = true.
Proof. induction n; simpl; auto. Qed.

Lemma contentLines_emitLines cl :
  (forall L, In L cl -> contentLines L = [L]) ->
  forall indent, contentLines (emitLines cl indent) = cl.
Proof.
  induction cl as [|L cl IH]; intros H indent; [reflexivity|].
  simpl emitLines.
  rewrite contentLines_ws_l by apply allWs_repeat.
  change (L ++ Js.nl ++ ?e) with (L ++ String "010" e).
  rewrite contentLines_nl, (H L) by now left.
  simpl. f_equal. apply IH. intros; apply H; now right.
Qed.

(** *** The loop *)

Lemma formatLines_emitLines lines :
  forall indent formatted,
    formatLines lines indent formatted =
    formatted ++ emitLines (cleanLines lines) indent.
Proof.
  induction lines as [|line lines IH]; intros indent formatted.
  - simpl. now rewrite append_nil_r.
  - simpl formatLines. unfold cleanLines. simpl List.map. simpl List.filter.
    fold (cleanLines lines).
    destruct (Js.truthy (Js.trim line)) eqn:T; simpl negb; cbv iota.
    + rewrite IH. simpl emitLines. now rewrite !append_assoc.
    + apply IH.
Qed.

Lemma formatXML_contentLines xml :
  formatXML xml = Js.trim (emitLines (contentLines xml) 0).
Proof. unfold formatXML. now rewrite formatLines_emitLines. Qed.

(** C9.  Formatting the output of [formatXML] again gives the same text,
    for every input text. *)
Theorem formatXML_idempotent :
  forall xml : string, formatXML (formatXML xml) = formatXML xml.
Proof.
  intros xml. rewrite (formatXML_contentLines (formatXML xml)).
  rewrite (formatXML_contentLines xml) at 1.
  rewrite contentLines_trim, contentLines_emitLines.
  - symmetry. apply formatXML_contentLines.
  - intros L. apply contentLines_line.
Qed.

(* ===================================================================== *)
(** * Further properties                                                  *)
(* ===================================================================== *)

(** ** Escaping *)

Lemma escapeChar_cases c :
  (c = "&"%char /\ escapeChar c = "&amp;") \/
  (c = "<"%char /\ escapeChar c = "&lt;") \/
  (c = ">"%char /\ escapeChar c = "&gt;") \/
  (c = "160"%char /\ escapeChar c = "&nbsp;") \/
  (Ascii.eqb c "&" = false /\ escapeChar c = Js.chr c).
Proof.
  unfold escapeChar.
  destruct (Ascii.eqb_spec c "&") as [->|N1]; [now left|].
  destruct (Ascii.eqb_spec c "<") as [->|N2]; [right; now left|].
  destruct (Ascii.eqb_spec c ">") as [->|N3]; [right; right; now left|].
  destruct (Js.code c =? 160)%nat eqn:E.
  - right; right; right; left. split; [|reflexivity].
    apply Nat.eqb_eq in E. unfold Js.code in E.
    rewrite <- (ascii_nat_embedding c), E. reflexivity.
  - right; right; right; right. auto.
Qed.

(** X1.  [escapeHtml] loses nothing: two texts with the same escaped form
    are the same text. *)
Theorem escapeHtml_injective :
  forall a b : string, escapeHtml a = escapeHtml b -> a = b.
Proof.
  induction a as [|c a IH]; intros [|d b] H.
  - reflexivity.
  - exfalso. cbn [escapeHtml] in H.
    destruct (escapeChar_cases d)
      as [(_ & E)|[(_ & E)|[(_ & E)|[(_ & E)|(_ & E)]]]];
      rewrite E in H; discriminate.
  - exfalso. cbn [escapeHtml] in H.
    destruct (escapeChar_cases c)
      as [(_ & E)|[(_ & E)|[(_ & E)|[(_ & E)|(_ & E)]]]];
      rewrite E in H; discriminate.
  - cbn [escapeHtml] in H.
    destruct (escapeChar_cases c)
      as [(Hc & Ec)|[(Hc & Ec)|[(Hc & Ec)|[(Hc & Ec)|(Nc & Ec)]]]];
    destruct (escapeChar_cases d)
      as [(Hd & Ed)|[(Hd & Ed)|[(Hd & Ed)|[(Hd & Ed)|(Nd & Ed)]]]];
    rewrite Ec, Ed in H; simpl in H;
      try discriminate;
      try (subst c d; injection H as H; f_equal; now apply IH);
      try (subst c; injection H as <- H; discriminate);
      try (subst d; injection H as -> H; discriminate).
    injection H as -> H. f_equal. now apply IH.
Qed.

Lemma escapeHtml_injective_witness : "a<b" = "a<b".
Proof. apply (escapeHtml_injective "a<b" "a<b"). reflexivity. Defined.

(** ** The resolver *)

Lemma partialMatch_In fileName es u :
  partialMatch fileName es = Some u -> In u (List.map snd es).
Proof.
  induction es as [|[k h] es IH]; simpl; [discriminate|].
  destruct (_ || _); intros H.
  - injection H as ->. now left.
  - right. now apply IH.
Qed.

(** X2.  The resolver never makes up a handle: whatever it returns is the
    handle of some entry of the index. *)
Theorem findImageUrl_in_index :
  forall (images : ImageIndex) (src : string) (u : url),
    findImageUrl images src = Some u -> In u (JsMap.values images).
Proof.
  intros images src u. unfold findImageUrl. cbv zeta.
  destruct (tryAttempts images (attempts src)) as [h|] eqn:T.
  - intros [= <-]. eapply tryAttempts_In; eauto.
  - apply partialMatch_In.
Qed.

Lemma findImageUrl_in_index_witness :
  In 7 (JsMap.values (storeImage "multimedia/photo.png" 7 JsMap.empty)).
Proof.
  apply (findImageUrl_in_index _ "photo" 7). reflexivity.
Defined.

(** X3.  Right after an image is stored, each of its five keys, given as
    a reference, resolves to its handle, whatever the index held before. *)
Theorem stored_keys_resolve :
  forall (path : string) (u : url) (images : ImageIndex) (k : string),
    In k (derivedKeys path) ->
    findImageUrl (storeImage path u images) k = Some u.
Proof.
  intros path u images k H. unfold findImageUrl, attempts. cbv zeta.
  rewrite tryAttempts_cons, (get_storeImage_in path u images k H).
  reflexivity.
Qed.

Lemma stored_keys_resolve_witness :
  findImageUrl (storeImage "img/Photo.PNG" 3 JsMap.empty) "photo" = Some 3.
Proof.
  apply (stored_keys_resolve "img/Photo.PNG" 3 JsMap.empty "photo").
  simpl. auto 6.
Defined.

(** X4.  A reference that is the stored path behind a leading [./] or [/]
    resolves to the image, unless the reference as written is itself a key
    of the index. *)
Theorem prefixed_path_resolves :
  forall (path : string) (u : url) (images : ImageIndex) (pre : string),
    pre = "./" \/ pre = "/" ->
    Js.startsWith path "/" = false ->
    JsMap.get (pre ++ path) (storeImage path u images) = None ->
    findImageUrl (storeImage path u images) (pre ++ path) = Some u.
Proof.
  intros path u images pre Hpre Hs Hn. unfold findImageUrl, attempts.
  cbv zeta. rewrite tryAttempts_cons, Hn.
  assert (C : Js.stripSlash (Js.stripDotSlash (pre ++ path)) = path).
  { destruct Hpre as [->| ->].
    - simpl. destruct path as [|a r]; [reflexivity|].
      unfold Js.startsWith in Hs. rewrite prefix_cons, prefix_nil in Hs.
      rewrite andb_true_r, Ascii.eqb_sym in Hs.
      unfold Js.stripSlash. now rewrite Hs.
    - simpl. destruct path as [|a r]; reflexivity. }
  rewrite C, tryAttempts_cons.
  rewrite (get_storeImage_in path u images path); [reflexivity|].
  simpl. auto.
Qed.

Lemma prefixed_path_resolves_witness :
  findImageUrl (storeImage "multimedia/image1.png" 2 JsMap.empty)
               "./multimedia/image1.png" = Some 2.
Proof.
  apply (prefixed_path_resolves "multimedia/image1.png" 2 JsMap.empty "./");
    [now left | reflexivity | reflexivity].
Defined.

(** X5.  File names are matched without regard to case: a reference whose
    file name part equals the stored file name up to case resolves to the
    image, provided none of the three earlier attempts (the reference, the
    cleaned reference, the file name as written) is a key of another
    image. *)
Theorem fileName_case_is_ignored :
  forall (path : string) (u : url) (images : ImageIndex) (src : string),
    Js.toLowerCase (fileNameOf src) =
      Js.toLowerCase (Js.pop (Js.split "/" path)) ->
    (forall k u',
        In k [src; Js.stripSlash (Js.stripDotSlash src); fileNameOf src] ->
        JsMap.get k (storeImage path u images) = Some u' -> u' = u) ->
    findImageUrl (storeImage path u images) src = Some u.
Proof.
  intros path u images src Hl Hk. unfold findImageUrl, attempts. cbv zeta.
  fold (fileNameOf src). rewrite !tryAttempts_cons.
  destruct (JsMap.get src _) as [u1|] eqn:G1.
  { f_equal. eapply Hk; [|exact G1]. simpl; auto. }
  destruct (JsMap.get (Js.stripSlash _) _) as [u2|] eqn:G2.
  { f_equal. eapply Hk; [|exact G2]. simpl; auto. }
  destruct (JsMap.get (fileNameOf src) _) as [u3|] eqn:G3.
  { f_equal. eapply Hk; [|exact G3]. simpl; auto. }
  rewrite Hl, (get_storeImage_in path u images); [reflexivity|].
  simpl. auto.
Qed.

Lemma fileName_case_is_ignored_witness :
  findImageUrl (storeImage "multimedia/photo.png" 5 JsMap.empty)
               "other/PHOTO.Png" = Some 5.
Proof.
  apply (fileName_case_is_ignored "multimedia/photo.png" 5 JsMap.empty
           "other/PHOTO.Png").
  - reflexivity.
  - intros k u' [<-|[<-|[<-|[]]]]; discriminate.
Defined.

Lemma partialMatch_hit fileName es k u :
  In (k, u) es -> Js.includes k fileName = true ->
  exists u', partialMatch fileName es = Some u'.
Proof.
  induction es as [|[k0 u0] es IH]; [intros []|]. intros [H|H] Hi.
  - injection H as -> ->. simpl. rewrite Hi. simpl. eauto.
  - simpl. destruct (_ || _); eauto.
Qed.

(** X6.  When some key of the index contains the file name part of the
    reference, the resolver returns a handle: notFound is only possible
    when no key contains it. *)
Theorem substring_of_a_key_resolves :
  forall (images : ImageIndex) (src k : string) (u : url),
    In (k, u) (JsMap.entries images) ->
    Js.includes k (fileNameOf src) = true ->
    exists u', findImageUrl images src = Some u'.
Proof.
  intros images src k u Hin Hi. unfold findImageUrl. cbv zeta.
  destruct (tryAttempts images (attempts src)) as [h|]; [eauto|].
  eapply partialMatch_hit; eauto.
Qed.

Lemma substring_of_a_key_resolves_witness :
  exists u',
    findImageUrl (storeImage "multimedia/figure_12.png" 1 JsMap.empty)
                 "fig/ure_12" = Some u'.
Proof.
  apply (substring_of_a_key_resolves _ "fig/ure_12" "figure_12.png" 1).
  - simpl. auto.
  - reflexivity.
Defined.

Lemma noDot_app_dot s e : Js.noDot (s ++ String "." e) = false.
Proof.
  induction s as [|c s IH]; [reflexivity|].
  simpl. rewrite IH. apply andb_false_r.
Qed.

(** X7.  Only the final extension is stripped: a name that ends in a dot
    followed by a non-empty extension without dots loses exactly that
    suffix, and a name without any dot is left as it is. *)
Theorem stripExtension_final_only :
  forall s e : string,
    (Js.noDot e = true -> e <> "" ->
     Js.stripExtension (s ++ String "." e) = s) /\
    (Js.noDot s = true -> Js.stripExtension s = s).
Proof.
  intros s e. split.
  - intros He Hne. induction s as [|c s IH].
    + simpl. rewrite He. destruct e; [now elim Hne | reflexivity].
    + simpl. rewrite noDot_app_dot, andb_false_r. now rewrite IH.
  - induction s as [|c s IH]; [reflexivity|].
    simpl. intros H. apply andb_true_iff in H as [Hc Hs].
    apply negb_true_iff in Hc. rewrite Hc. simpl. now rewrite IH.
Qed.

Lemma stripExtension_final_only_witness :
  Js.stripExtension ("archive.tar" ++ String "." "gz") = "archive.tar" /\
  Js.stripExtension "README" = "README".
Proof.
  split.
  - apply (proj1 (stripExtension_final_only "archive.tar" "gz"));
      [reflexivity | discriminate].
  - apply (proj2 (stripExtension_final_only "README" "")). reflexivity.
Defined.

(** ** The renderer *)

Lemma given_truthy a s : Js.given a = Some s -> Js.truthy s = true.
Proof.
  destruct a as [x|]; simpl; [|discriminate].
  destruct (Js.truthy x) eqn:T; [|discriminate]. now intros [= <-].
Qed.

Lemma firstAttr_truthy element attrs s :
  firstAttr element attrs = Some s -> Js.truthy s = true.
Proof.
  induction attrs as [|a attrs IH]; simpl; [discriminate|].
  destruct (Js.given (Dom.getAttribute element a)) as [v|] eqn:G; [|exact IH].
  intros [= <-]. eapply given_truthy; eauto.
Qed.

(** X8.  The reference [renderImage] hands to the resolver is never the
    empty string: an empty attribute, an empty nested source and an empty
    text all count as no reference. *)
Theorem imageSource_is_not_empty :
  forall (element : node) (src : string),
    imageSource element = Some src -> Js.truthy src = true.
Proof.
  intros element src. unfold imageSource.
  destruct (firstAttr element srcAttrs) as [v|] eqn:F.
  { intros [= <-]. eapply firstAttr_truthy; eauto. }
  destruct (Dom.querySelector _ element) as [sourceEl|].
  - destruct (Js.given (Js.orElse _ _)) as [v|] eqn:G.
    + intros [= <-]. eapply given_truthy; eauto.
    + destruct (Dom.childNodes element) as [|[] [|]]; try discriminate.
      apply given_truthy.
  - destruct (Dom.childNodes element) as [|[] [|]]; try discriminate.
    apply given_truthy.
Qed.

Lemma imageSource_is_not_empty_witness :
  Js.truthy "a.png" = true.
Proof.
  apply (imageSource_is_not_empty
           (Element "image" [("src", ""); ("href", "a.png")] []) "a.png").
  reflexivity.
Defined.

Lemma renderNodes_visible rec here nodes :
  forall html,
    renderNodes rec here nodes html =
    renderNodes rec here (List.filter visibleNode nodes) html.
Proof.
  induction nodes as [|c nodes IH]; intros html; [reflexivity|].
  destruct c; simpl.
  - destruct (rec here _); simpl; [apply IH | reflexivity].
  - destruct (Js.truthy (Js.trim data)) eqn:T; simpl; [rewrite T|]; apply IH.
  - apply IH.
  - apply IH.
  - apply IH.
Qed.

(** X9.  Blank text nodes, CDATA sections, comments and processing
    instructions among the children of an element leave no trace in the
    output of [renderChildren]: removing them gives the same result,
    whatever the renderer of child elements is. *)
Theorem renderChildren_skips_invisible :
  forall (rec : list string -> node -> option string) (anc : list string)
         (tag : string) (attrs : list (string * string)) (kids : list node),
    renderChildren rec anc (Element tag attrs kids) =
    renderChildren rec anc
      (Element tag attrs (List.filter visibleNode kids)).
Proof.
  intros. unfold renderChildren. simpl. apply renderNodes_visible.
Qed.

(** X10.  In the default branch of [renderElement] the block-tag test
    decides nothing: whenever [hasBlockElements] holds the element has a
    child element, so the condition is that of having a child element. *)
Theorem block_test_is_subsumed :
  forall element : node,
    hasBlockElements element ||
      (0 <? List.length (Dom.children element))%nat =
    (0 <? List.length (Dom.children element))%nat.
Proof.
  intros element. unfold hasBlockElements.
  destruct (Dom.children element); [reflexivity|].
  simpl. apply orb_true_r.
Qed.

(** ** The session *)

Lemma revokeAll_keeps urls live u :
  In u live -> ~ In u urls -> In u (revokeAll urls live).
Proof.
  unfold revokeAll. revert live.
  induction urls as [|x urls IH]; intros live Hl Hn; [exact Hl|].
  simpl. apply IH.
  - unfold revokeObjectURL. apply filter_In. split; [exact Hl|].
    apply negb_true_iff, Nat.eqb_neq. intros ->. apply Hn. now left.
  - intros H. apply Hn. now right.
Qed.

(** X11.  [reset] revokes exactly the handles of the index: an object URL
    is live after it if and only if it was live before and no entry of
    the index held it. *)
Theorem reset_revokes_exactly_the_index :
  forall (v : Viewer) (u : url),
    In u (objectUrls (reset v)) <->
    In u (objectUrls v) /\ ~ In u (JsMap.values (images v)).
Proof.
  intros v u. simpl. split.
  - apply In_revokeAll.
  - intros [H N]. now apply revokeAll_keeps.
Qed.

Lemma extractImages_store files :
  forall v,
    objectUrls (extractImages files v) =
      (objectUrls v ++ List.seq (nextUrl v) (List.length files))%list /\
    nextUrl (extractImages files v) = nextUrl v + List.length files /\
    xmlFiles (extractImages files v) = xmlFiles v /\
    currentXmlIndex (extractImages files v) = currentXmlIndex v /\
    renderedView (extractImages files v) = renderedView v /\
    rawView (extractImages files v) = rawView v /\
    screen (extractImages files v) = screen v.
Proof.
  induction files as [|p files IH]; intros v; simpl.
  - rewrite app_nil_r, Nat.add_0_r. repeat split.
  - destruct (IH (setImages (snd (createObjectURL v))
                    (storeImage p (nextUrl v) (images v))))
      as (H1 & H2 & H3 & H4 & H5 & H6 & H7).
    simpl in *. rewrite H1, H2, H3, H4, H5, H6, H7.
    rewrite <- app_assoc. simpl. repeat split. lia.
Qed.

(** X12.  The image loop of [extractContents] creates one object URL per
    image and no other: the live URLs grow by the serial numbers
    [nextUrl], [nextUrl + 1], ... in the order of the images. *)
Theorem extractImages_creates_one_url_each :
  forall (files : list string) (v : Viewer),
    objectUrls (extractImages files v) =
      (objectUrls v ++ List.seq (nextUrl v) (List.length files))%list /\
    nextUrl (extractImages files v) = nextUrl v + List.length files.
Proof.
  intros files v. destruct (extractImages_store files v) as (H1 & H2 & _).
  now split.
Qed.

Lemma values_set {V} (k : string) (x y : V) (m : JsMap.t V) :
  In y (JsMap.values (JsMap.set k x m)) -> y = x \/ In y (JsMap.values m).
Proof.
  unfold JsMap.values. induction m as [|[k0 v0] m IH]; simpl.
  - intuition.
  - destruct (String.eqb k k0); simpl; intuition.
Qed.

Lemma values_storeImage path h images u :
  In u (JsMap.values (storeImage path h images)) ->
  u = h \/ In u (JsMap.values images).
Proof.
  unfold storeImage. cbv zeta. intros H.
  repeat (apply values_set in H as [H|H]; [now left|]). now right.
Qed.

Lemma handlesLive_extractImages files :
  forall v, handlesLive v -> handlesLive (extractImages files v).
Proof.
  induction files as [|p files IH]; intros v [H1 H2]; [now split|].
  simpl. apply IH. split; simpl.
  - intros u Hu. apply in_or_app.
    apply values_storeImage in Hu as [->|Hu]; [right; now left|left; auto].
  - intros u Hu. apply in_app_or in Hu as [Hu|[<-|[]]]; [|lia].
    specialize (H2 u Hu). lia.
Qed.

Lemma handlesLive_ext v w :
  images w = images v -> objectUrls w = objectUrls v ->
  nextUrl w = nextUrl v -> handlesLive v -> handlesLive w.
Proof. unfold handlesLive. intros -> -> ->. auto. Qed.

Section SessionInvariants.
Variable parseXml : string -> node * bool.
Variable localeLe : string -> string -> bool.

Lemma store_renderCurrentXML v v' :
  renderCurrentXML v = Some v' ->
  images v' = images v /\ objectUrls v' = objectUrls v /\
  nextUrl v' = nextUrl v /\ xmlFiles v' = xmlFiles v /\
  currentXmlIndex v' = currentXmlIndex v /\ screen v' = screen v.
Proof.
  unfold renderCurrentXML.
  destruct (List.nth_error (xmlFiles v) (currentXmlIndex v)) as [x|].
  - destruct (render (images v) (parsed x)); simpl; [|discriminate].
    intros [= <-]. simpl. repeat split.
  - intros [= <-]. repeat split.
Qed.

Lemma handlesLive_extractContents v files :
  handlesLive v ->
  handlesLive (fst (extractContents parseXml localeLe v files)).
Proof.
  intros H. unfold extractContents.
  destruct (classify files) as [xmls imageFiles].
  destruct xmls as [|x xmls]; [exact H|].
  match goal with
  | |- context [extractImages imageFiles ?w] =>
      assert (L : handlesLive (extractImages imageFiles w))
        by (apply handlesLive_extractImages; exact H);
      set (e := extractImages imageFiles w) in *
  end.
  match goal with
  | |- context [renderCurrentXML ?w] =>
      destruct (renderCurrentXML w) as [v'|] eqn:R
  end; simpl fst.
  - apply store_renderCurrentXML in R as (R1 & R2 & R3 & _).
    eapply handlesLive_ext; [exact R1 | exact R2 | exact R3 |].
    eapply handlesLive_ext; [| | | exact L]; reflexivity.
  - eapply handlesLive_ext; [| | | exact L]; reflexivity.
Qed.

(** X13.  The index never holds a revoked handle.  The property that
    every handle of the index is a live object URL (and every live URL
    has a serial number below [nextUrl]) holds for a new viewer and is
    kept by [processFile] and by [reset]. *)
Theorem handles_stay_live :
  handlesLive newViewer /\
  (forall v file,
      handlesLive v -> handlesLive (processFile parseXml localeLe v file)) /\
  (forall v, handlesLive v -> handlesLive (reset v)).
Proof.
  split; [|split].
  - split; simpl; intros u [].
  - intros v file H. unfold processFile.
    destruct (negb (Js.endsWith (fileName file) ".zip")); [exact H|].
    destruct (loadAsync file) as [message|files]; [exact H|].
    pose proof (handlesLive_extractContents (setScreen v LoadingScreen)
                  files H) as L.
    destruct (extractContents parseXml localeLe (setScreen v LoadingScreen)
                files) as [w [message|]]; exact L.
  - intros v [H1 H2]. split; simpl.
    + intros u [].
    + intros u Hu. apply In_revokeAll in Hu as [Hu _]. auto.
Qed.

(** X14.  A load that fails before extraction changes nothing but the
    screen: a file whose name does not end in [.zip], an archive that
    cannot be opened, and an archive without any XML entry leave the
    documents, the index, the views and the object URLs as they were --
    in the last case no object URL is created for the images of the
    archive. *)
Theorem failed_load_changes_only_the_screen :
  forall (v : Viewer) (file : File),
    Js.endsWith (fileName file) ".zip" = false \/
    (exists message, loadAsync file = inl message) \/
    (exists files, loadAsync file = inr files /\ fst (classify files) = []) ->
    exists message,
      processFile parseXml localeLe v file = setScreen v (ErrorScreen message).
Proof.
  intros v file H. unfold processFile.
  destruct (Js.endsWith (fileName file) ".zip") eqn:Z; simpl negb; cbv iota.
  - destruct H as [H|[(message & H)|(files & H & C)]]; [discriminate| |].
    + rewrite H. eexists. reflexivity.
    + rewrite H. unfold extractContents.
      destruct (classify files) as [xmls imageFiles]. simpl in C. subst xmls.
      eexists. reflexivity.
  - eexists. reflexivity.
Qed.

Lemma insertByName_perm x l :
  Permutation (insertByName localeLe x l) (x :: l).
Proof.
  induction l as [|y l IH]; simpl; [apply Permutation_refl|].
  destruct (localeLe _ _); [|apply Permutation_refl].
  eapply perm_trans; [apply perm_skip, IH | apply perm_swap].
Qed.

Lemma fold_insert_perm l :
  forall acc,
    Permutation (List.fold_left (fun acc x => insertByName localeLe x acc) l acc)
                (l ++ acc).
Proof.
  induction l as [|x l IH]; intros acc; simpl; [apply Permutation_refl|].
  eapply perm_trans; [apply IH|].
  eapply perm_trans; [apply Permutation_app_head, insertByName_perm|].
  apply Permutation_sym, Permutation_middle.
Qed.

Lemma insertByName_sorted x l :
  (forall a b, localeLe a b = true \/ localeLe b a = true) ->
  Sorted (nameLe localeLe) l -> Sorted (nameLe localeLe) (insertByName localeLe x l).
Proof.
  intros total. induction l as [|y l IH]; intros S; simpl.
  - repeat constructor.
  - fold (entryName y). fold (entryName x).
    destruct (localeLe (entryName y) (entryName x)) eqn:E.
    + apply Sorted_inv in S as [S Hy]. constructor; [now apply IH|].
      destruct l as [|z l]; simpl.
      * constructor. exact E.
      * fold (entryName z). fold (entryName x).
        destruct (localeLe (entryName z) (entryName x)).
        -- constructor. now apply HdRel_inv in Hy.
        -- constructor. exact E.
    + constructor; [exact S|]. constructor. unfold nameLe.
      destruct (total (entryName x) (entryName y)) as [H|H]; [exact H|].
      congruence.
Qed.

Lemma sortByName_perm l : Permutation (sortByName localeLe l) l.
Proof.
  unfold sortByName. rewrite <- (app_nil_r l) at 2. apply fold_insert_perm.
Qed.

(** X15.  The documents are offered in the order of their names.
    [sortByName] returns the XML entries it is given, each once, and when
    the comparison is total the result is sorted: each entry's name is at
    most the name of the next. *)
Theorem sortByName_sorts :
  forall l : list (string * ZipEntry),
    Permutation (sortByName localeLe l) l /\
    ((forall a b, localeLe a b = true \/ localeLe b a = true) ->
     Sorted (nameLe localeLe) (sortByName localeLe l)).
Proof.
  intros l. split; [apply sortByName_perm|].
  unfold sortByName.
  - intros total.
    assert (G : forall acc, Sorted (nameLe localeLe) acc ->
                  Sorted (nameLe localeLe)
                    (List.fold_left
                       (fun acc x => insertByName localeLe x acc) l acc)).
    { induction l as [|x l IH]; intros acc S; simpl; [exact S|].
      apply IH. now apply insertByName_sorted. }
    apply G. constructor.
Qed.
End SessionInvariants.

Lemma extractImages_images_ext files :
  forall v w,
    images v = images w -> nextUrl v = nextUrl w ->
    images (extractImages files v) = images (extractImages files w).
Proof.
  induction files as [|p files IH]; intros v w Hi Hn; [exact Hi|].
  simpl. apply IH; simpl; congruence.
Qed.

Section Loading.
Variable parseXml : string -> node * bool.
Variable localeLe : string -> string -> bool.

Lemma name_parseFile f : name (parseFile parseXml f) = entryName f.
Proof. unfold parseFile. now destruct (parseXml (text (snd f))). Qed.

(** X16.  A load that ends on the preview screen has taken the archive in
    whole: the documents are the XML entries of the archive, each once;
    the index is the one the image loop builds on the index held before;
    the first document is selected, and the two views show it, rendered
    against the new index and reformatted. *)
Theorem preview_shows_first_document :
  forall (v : Viewer) (file : File),
    screen (processFile parseXml localeLe v file) = PreviewScreen ->
    exists files f html,
      let v' := processFile parseXml localeLe v file in
      loadAsync file = inr files /\
      Permutation (List.map name (xmlFiles v'))
                  (List.map entryName (fst (classify files))) /\
      images v' = images (extractImages (snd (classify files)) v) /\
      currentXmlIndex v' = 0 /\
      List.hd_error (xmlFiles v') = Some f /\
      render (images v') (parsed f) = Some html /\
      renderedView v' = Html.wrap "div" "xml-document" html /\
      rawView v' = formatXML (content f).
Proof.
  intros v file. unfold processFile.
  destruct (negb (Js.endsWith (fileName file) ".zip")); [discriminate|].
  destruct (loadAsync file) as [message|files]; [discriminate|].
  unfold extractContents.
  destruct (classify files) as [xmls imageFiles] eqn:C.
  destruct xmls as [|x xmls]; [discriminate|].
  match goal with
  | |- context [extractImages imageFiles ?w] =>
      pose proof (extractImages_store imageFiles w)
        as (_ & _ & X & _ & _ & _ & _);
      pose proof (extractImages_images_ext imageFiles w v eq_refl eq_refl)
        as I;
      set (e := extractImages imageFiles w) in *
  end.
  simpl in X.
  unfold renderCurrentXML. cbn [currentXmlIndex xmlFiles images].
  destruct (xmlFiles e) as [|f fs] eqn:F.
  { exfalso. symmetry in X. apply map_eq_nil in X.
    pose proof (sortByName_perm localeLe (x :: xmls)) as P.
    rewrite X in P. now apply Permutation_nil in P. }
  cbn [List.nth_error].
  destruct (render (images e) (parsed f)) as [html|] eqn:R;
    cbn [bind]; [|discriminate].
  intros _. exists files, f, html. cbv zeta. simpl.
  repeat split; try assumption.
  - change (Permutation (List.map name (f :: fs))
              (List.map entryName (fst (classify files)))).
    rewrite X, C, map_map.
    rewrite (map_ext _ entryName) by apply name_parseFile.
    apply Permutation_map.
    apply sortByName_perm.
  - rewrite C. exact I.
Qed.
End Loading.

Lemma classify_cons p z files :
  classify ((p, z) :: files) =
  if dir z then classify files
  else (if String.eqb (extensionOf p) "xml"
        then (p, z) :: fst (classify files) else fst (classify files),
        if Js.inArray (extensionOf p) imageExtensions
        then p :: snd (classify files) else snd (classify files)).
Proof.
  cbn [classify]. destruct (classify files). now destruct (dir z).
Qed.

(** X17.  The first loop of [extractContents] takes a path as an image
    exactly when it is the path of an entry that is not a directory and
    whose extension, lower-cased, is one of the nine image extensions; it
    takes an entry as a document exactly when it is not a directory and
    its lower-cased extension is [xml]; and no path is taken as both. *)
Theorem classify_by_extension :
  forall (files : list (string * ZipEntry)) (path : string),
    (In path (snd (classify files)) <->
     exists e, In (path, e) files /\ dir e = false /\
               Js.inArray (extensionOf path) imageExtensions = true) /\
    (forall e, In (path, e) (fst (classify files)) <->
               In (path, e) files /\ dir e = false /\
               extensionOf path = "xml") /\
    ~ (In path (snd (classify files)) /\
       exists e, In (path, e) (fst (classify files))).
Proof.
  intros files path.
  assert (A : In path (snd (classify files)) <->
              exists e, In (path, e) files /\ dir e = false /\
                        Js.inArray (extensionOf path) imageExtensions = true).
  { induction files as [|[p z] files IH].
    - split; [intros [] | intros (e & [] & _)].
    - rewrite classify_cons. destruct (dir z) eqn:D.
      + rewrite IH. split; intros (e & H & He); exists e.
        * split; [now right | exact He].
        * destruct H as [H|H]; [|now split].
          injection H as -> ->. destruct He; congruence.
      + cbn [snd].
        destruct (Js.inArray (extensionOf p) imageExtensions) eqn:I.
        * split.
          -- intros [->|H]; [exists z; split; [now left|auto]|].
             apply IH in H as (e & H & He). exists e.
             split; [now right | exact He].
          -- intros (e & [H|H] & He); [injection H as -> ->; now left|].
             right. apply IH. exists e. auto.
        * rewrite IH. split; intros (e & H & He); exists e.
          -- split; [now right | exact He].
          -- destruct H as [H|H]; [|now split].
             injection H as -> ->. destruct He; congruence. }
  assert (B : forall e, In (path, e) (fst (classify files)) <->
                        In (path, e) files /\ dir e = false /\
                        extensionOf path = "xml").
  { clear A. intros e. induction files as [|[p z] files IH].
    - simpl. tauto.
    - rewrite classify_cons. destruct (dir z) eqn:D.
      + rewrite IH. split.
        * intros (H & He). split; [now right | exact He].
        * intros ([H|H] & He & Hx); [|tauto].
          injection H as -> ->. congruence.
      + cbn [fst].
        destruct (String.eqb_spec (extensionOf p) "xml") as [X|X].
        * split.
          -- intros [H|H]; [injection H as -> ->; split; [now left|auto]|].
             apply IH in H. split; [now right | tauto].
          -- intros ([H|H] & He); [now left|]. right. apply IH. tauto.
        * rewrite IH. split.
          -- intros (H & He). split; [now right | exact He].
          -- intros ([H|H] & He & Hx); [|tauto].
             injection H as -> ->. congruence. }
  split; [exact A|]. split; [exact B|].
  intros (Hi & e & Hx). apply A in Hi as (e' & _ & _ & I).
  apply B in Hx as (_ & _ & X). rewrite X in I. discriminate.
Qed.

Lemma handles_stay_live_witness :
  handlesLive (reset (processFile parseStub String.leb newViewer archiveA)).
Proof.
  apply (proj2 (proj2 (handles_stay_live parseStub String.leb))).
  apply (proj1 (proj2 (handles_stay_live parseStub String.leb))).
  apply (proj1 (handles_stay_live parseStub String.leb)).
Defined.

Lemma failed_load_changes_only_the_screen_witness :
  exists message,
    processFile parseStub String.leb
      (processFile parseStub String.leb newViewer archiveA)
      {| fileName := "notes.txt"; loadAsync := inl "" |} =
    setScreen (processFile parseStub String.leb newViewer archiveA)
              (ErrorScreen message).
Proof.
  apply (failed_load_changes_only_the_screen parseStub String.leb).
  left. reflexivity.
Defined.

Lemma sortByName_sorts_witness :
  Sorted (nameLe String.leb)
    (sortByName String.leb
       [ ("b.xml", {| dir := false; text := "" |});
         ("docs/a.xml", {| dir := false; text := "" |}) ]).
Proof.
  apply (proj2 (sortByName_sorts String.leb _)). exact String.leb_total.
Defined.

Lemma preview_shows_first_document_witness :
  exists files f html,
    let v' := processFile parseStub String.leb newViewer archiveA in
    loadAsync archiveA = inr files /\
    Permutation (List.map name (xmlFiles v'))
                (List.map entryName (fst (classify files))) /\
    images v' = images (extractImages (snd (classify files)) newViewer) /\
    currentXmlIndex v' = 0 /\
    List.hd_error (xmlFiles v') = Some f /\
    render (images v') (parsed f) = Some html /\
    renderedView v' = Html.wrap "div" "xml-document" html /\
    rawView v' = formatXML (content f).
Proof.
  apply (preview_shows_first_document parseStub String.leb newViewer archiveA).
  reflexivity.
Defined.

(** ** The raw formatter *)

Lemma hasNl_trimStart s : hasNl s = false -> hasNl (Js.trimStart s) = false.
Proof.
  induction s as [|c s IH]; [reflexivity|].
  simpl. intros H. destruct (Js.is_ws c); [|exact H].
  apply orb_false_iff in H as [_ H]. auto.
Qed.

Lemma hasNl_trimEnd s : hasNl s = false -> hasNl (Js.trimEnd s) = false.
Proof.
  induction s as [|c s IH]; [reflexivity|].
  simpl. intros H. apply orb_false_iff in H as [C H].
  destruct (Js.is_ws c && negb (Js.truthy (Js.trimEnd s))); [reflexivity|].
  simpl. rewrite C. auto.
Qed.

Lemma trimStart_trimEnd s :
  Js.trimStart (Js.trimEnd (Js.trimStart s)) = Js.trimEnd (Js.trimStart s).
Proof.
  destruct (Js.trimStart s) as [|c r] eqn:T; [reflexivity|].
  assert (C : Js.is_ws c = false).
  { clear -T. induction s as [|d s IH]; [discriminate|].
    simpl in T. destruct (Js.is_ws d) eqn:D; [auto|].
    injection T as -> _. exact D. }
  simpl. rewrite C. simpl. now rewrite C.
Qed.

Lemma trimEnd_idem s : Js.trimEnd (Js.trimEnd s) = Js.trimEnd s.
Proof.
  induction s as [|c s IH]; [reflexivity|].
  simpl. destruct (Js.is_ws c && negb (Js.truthy (Js.trimEnd s))) eqn:E;
    [reflexivity|].
  simpl. rewrite IH, E. reflexivity.
Qed.

Lemma trim_idem s : Js.trim (Js.trim s) = Js.trim s.
Proof.
  unfold Js.trim. rewrite trimStart_trimEnd. apply trimEnd_idem.
Qed.

Lemma contentLines_allWs w : allWs w = true -> contentLines w = [].
Proof.
  intros H. rewrite <- (append_nil_r w). now rewrite contentLines_ws_l.
Qed.

(** X18.  A text of whitespace only, the empty text included, is
    formatted to the empty text. *)
Theorem formatXML_of_blank :
  forall xml : string, allWs xml = true -> formatXML xml = "".
Proof.
  intros xml H. rewrite formatXML_contentLines, contentLines_allWs by exact H.
  reflexivity.
Qed.

Lemma formatXML_of_blank_witness :
  formatXML (" " ++ Js.nl ++ "  ") = "".
Proof. apply (formatXML_of_blank (" " ++ Js.nl ++ "  ")). reflexivity. Defined.

(** X19.  The whitespace around the lines of the input does not matter:
    whitespace after a line feed (the indentation of a line), before a
    line feed, at the start and at the end of the text can be removed
    without changing the result -- so blank lines do not matter either. *)
Theorem formatXML_ignores_indentation :
  forall a w b : string,
    allWs w = true ->
    formatXML (a ++ String "010" (w ++ b)) = formatXML (a ++ String "010" b) /\
    formatXML ((a ++ w) ++ String "010" b) = formatXML (a ++ String "010" b) /\
    formatXML (w ++ a) = formatXML a /\
    formatXML (a ++ w) = formatXML a.
Proof.
  intros a w b H. rewrite !formatXML_contentLines, !contentLines_nl.
  rewrite (contentLines_ws_l w b H), (contentLines_ws_l w a H).
  rewrite (contentLines_ws_r a w H). repeat split.
Qed.

Lemma formatXML_ignores_indentation_witness :
  formatXML ("<a>" ++ String "010" ("    " ++ "text")) =
    formatXML ("<a>" ++ String "010" "text") /\
  formatXML (("<a>" ++ "    ") ++ String "010" "text") =
    formatXML ("<a>" ++ String "010" "text") /\
  formatXML ("    " ++ "<a>") = formatXML "<a>" /\
  formatXML ("<a>" ++ "    ") = formatXML "<a>".
Proof.
  apply (formatXML_ignores_indentation "<a>" "    " "text"). reflexivity.
Defined.

Lemma lines_trim a :
  cleanLines (Js.split "010" (Js.trim a)) = cleanLines (Js.split "010" a).
Proof.
  destruct (trim_split a) as (w1 & w2 & H1 & H2 & E).
  rewrite E at 2. now rewrite lines_ws_l, lines_ws_r.
Qed.

Lemma lines_emitLines cl :
  (forall L, In L cl -> cleanLines (Js.split "010" L) = [L]) ->
  forall indent, cleanLines (Js.split "010" (emitLines cl indent)) = cl.
Proof.
  induction cl as [|L cl IH]; intros H indent; [reflexivity|].
  simpl emitLines.
  rewrite lines_ws_l by apply allWs_repeat.
  change (L ++ Js.nl ++ ?e) with (L ++ String "010" e).
  rewrite lines_nl, (H L) by now left.
  simpl. f_equal. apply IH. intros; apply H; now right.
Qed.

(** X20.  Formatting only moves whitespace at line boundaries.  The lines
    of the output, trimmed, are the content lines of the input -- the
    non-blank trimmed lines of the text the regexp leaves -- in the same
    order, none lost and none added; and the output has no whitespace at
    its start or end. *)
Theorem formatXML_keeps_content :
  forall xml : string,
    cleanLines (Js.split "010" (formatXML xml)) = contentLines xml /\
    Js.trim (formatXML xml) = formatXML xml.
Proof.
  intros xml. split.
  - rewrite formatXML_contentLines, lines_trim. apply lines_emitLines.
    intros L H. unfold contentLines, cleanLines in H.
    apply filter_In in H as [H T]. apply in_map_iff in H as (l & <- & H).
    rewrite split_noNl.
    + unfold cleanLines. simpl. now rewrite trim_idem, T.
    + unfold Js.trim. apply hasNl_trimEnd, hasNl_trimStart.
      eapply split_lines_noNl; eauto.
  - unfold formatXML. apply trim_idem.
Qed.

Lemma matchWsLt_ws_lt w b :
  allWs w = true -> matchWsLt (w ++ String "<" b) = Some b.
Proof.
  induction w as [|c w IH]; [reflexivity|].
  simpl. intros H. apply andb_true_iff in H as [C H].
  now rewrite (ws_not_lt c C), C, IH.
Qed.

Lemma replaceGtLt_app_gt a s :
  replaceGtLt (a ++ String ">" s) =
  replaceGtLt a ++ replaceGtLt (String ">" s).
Proof.
  induction a as [a IH] using string_length_ind.
  destruct a as [|c r].
  { assert (E : replaceGtLt "" = "") by now simp replaceGtLt.
    rewrite E. reflexivity. }
  change (String c r ++ String ">" s) with (String c (r ++ String ">" s)).
  destruct (replaceGtLt_cases c r)
    as [(E & ->)|[(-> & M & ->)|(-> & r' & M & ->)]].
  - rewrite replaceGtLt_other by assumption. simpl. f_equal.
    apply IH. simpl. lia.
  - rewrite replaceGtLt_nomatch.
    + simpl. f_equal. apply IH. simpl. lia.
    + rewrite matchWsLt_none_app by assumption. now destruct (allWs r).
  - rewrite (replaceGtLt_match _ _ (matchWsLt_app _ _ _ M)).
    simpl. do 3 f_equal. apply IH.
    apply matchWsLt_shorter in M. simpl. lia.
Qed.

(** X21.  Between a [>] and the next [<], any run of whitespace, the
    empty one included, counts as one line feed: the two tags are put on
    separate lines, and the result is the same as if the input had
    exactly a line feed there. *)
Theorem formatXML_breaks_between_tags :
  forall a w b : string,
    allWs w = true ->
    formatXML (a ++ String ">" (w ++ String "<" b)) =
    formatXML (a ++ String ">" (String "010" (String "<" b))).
Proof.
  intros a w b H. unfold formatXML.
  rewrite !replaceGtLt_app_gt.
  rewrite (replaceGtLt_match _ _ (matchWsLt_ws_lt w b H)).
  now rewrite (replaceGtLt_match (String "010" (String "<" b)) b eq_refl).
Qed.

Lemma formatXML_breaks_between_tags_witness :
  formatXML ("<a" ++ String ">" ("" ++ String "<" "b/></a>")) =
  formatXML ("<a" ++ String ">" (String "010" (String "<" "b/></a>"))).
Proof.
  apply (formatXML_breaks_between_tags "<a" "" "b/></a>"). reflexivity.
Defined.

(** ** Text never becomes markup *)

Lemma includes_app_char a b c :
  Js.includes (a ++ b) (Js.chr c) =
  Js.includes a (Js.chr c) || Js.includes b (Js.chr c).
Proof.
  induction a as [|x a IH].
  - simpl append. destruct b; reflexivity.
  - change (String x a ++ b) with (String x (a ++ b)).
    cbn [Js.includes]. unfold Js.chr in *.
    rewrite !prefix_cons, !prefix_nil, IH. now rewrite orb_assoc.
Qed.

Lemma renderNodes_text_only rec here c nodes :
  (forall k, In k nodes -> Dom.isElement k = false) ->
  forall html,
    Js.includes html (Js.chr c) = false ->
    (forall text, Js.includes (escapeHtml text) (Js.chr c) = false) ->
    exists s, renderNodes rec here nodes html = Some s /\
              Js.includes s (Js.chr c) = false.
Proof.
  induction nodes as [|k nodes IH]; intros H html Hh He; simpl; [eauto|].
  assert (Hn : forall k', In k' nodes -> Dom.isElement k' = false)
    by (intros; apply H; now right).
  destruct k; try (apply IH; auto).
  - specialize (H _ (or_introl eq_refl)). discriminate.
  - destruct (Js.truthy (Js.trim data)); [|exact Hh].
    rewrite includes_app_char, Hh, He. reflexivity.
Qed.

(** X22.  Text never becomes markup.  The escaped form of any text holds
    no angle bracket; and for an element without child elements, the
    whole output of [renderChildren] holds none either, whatever its text
    nodes contain. *)
Theorem text_never_becomes_markup :
  (forall text : string,
      Js.includes (escapeHtml text) "<" = false /\
      Js.includes (escapeHtml text) ">" = false) /\
  (forall (rec : list string -> node -> option string) (anc : list string)
          (tag : string) (attrs : list (string * string)) (kids : list node),
      (forall k, In k kids -> Dom.isElement k = false) ->
      exists s,
        renderChildren rec anc (Element tag attrs kids) = Some s /\
        Js.includes s "<" = false /\ Js.includes s ">" = false).
Proof.
  split; [exact escapeHtml_no_angle|].
  intros rec anc tag attrs kids H. unfold renderChildren. simpl.
  destruct (renderNodes_text_only rec (tag :: anc) "<" kids H "")
    as (s & Hs & H1); try reflexivity.
  { intros text. apply escapeHtml_no_angle. }
  destruct (renderNodes_text_only rec (tag :: anc) ">" kids H "")
    as (s' & Hs' & H2); try reflexivity.
  { intros text. apply escapeHtml_no_angle. }
  exists s. rewrite Hs in Hs'. injection Hs' as <-. auto.
Qed.

Lemma text_never_becomes_markup_witness :
  exists s,
    renderChildren (fun _ _ => None) []
      (Element "note" [] [Text "a < b"; Comment "c"; CDATASection "<x/>"]) =
      Some s /\
    Js.includes s "<" = false /\ Js.includes s ">" = false.
Proof.
  apply (proj2 text_never_becomes_markup).
  intros k [<-|[<-|[<-|[]]]]; reflexivity.
Defined.
